(** * Automatic Visual Context: the send pipeline, the inference adapter
      and the generated form, embedded from the TypeScript sources.

    - [types.ts]                   (the records)
    - [services/geminiService.ts]  ([cleanJsonOutput], [sendMessageToGemini])
    - the [App] component          (state, [handleSend], [handleFormSubmit],
                                    the handlers of the input form)
    - the [GenerativeForm] component, in [components/FinalOutput.tsx]
                                   ([handleChange], [handleSubmit], progress)
    - the [DynamicField] component (the calls a field makes to [onChange])

    JavaScript strings are sequences of UTF-16 code units; objects keep their
    properties in the order ECMAScript prescribes; numbers are binary64. *)

From Stdlib Require Import Strings.String Strings.Ascii Numbers.DecimalString.
From Stdlib Require Import Floats.
From Stdlib Require Import NArith ZArith Bool Lia Arith List Permutation.
Import ListNotations.

Set Implicit Arguments.

(* ===================================================================== *)
(** ** JavaScript strings *)
(* ===================================================================== *)

Module Js.
Local Open Scope N_scope.

(** A string is its list of UTF-16 code units. *)
Definition jsstring := list N.

(** A literal made of ASCII characters. *)
Definition lit (s : string) : jsstring :=
  map N_of_ascii (list_ascii_of_string s).

(** A literal in which the apostrophe stands for the quotation mark
    (U+0022), for writing JSON texts. *)
Definition qlit (s : string) : jsstring :=
  map (fun c => if c =? 39 then 34 else c) (lit s).

Fixpoint str_eqb (a b : jsstring) : bool :=
  match a, b with
  | [], [] => true
  | x :: a', y :: b' => N.eqb x y && str_eqb a' b'
  | _, _ => false
  end.

(** ECMAScript WhiteSpace and LineTerminator code points: what
    [String.prototype.trim] strips and what the regular expression class
    [\s] matches. *)
Definition isWhiteSpace (c : N) : bool :=
  ((9 <=? c) && (c <=? 13)) || (c =? 32) || (c =? 160) || (c =? 5760)
  || ((8192 <=? c) && (c <=? 8202)) || (c =? 8232) || (c =? 8233)
  || (c =? 8239) || (c =? 8287) || (c =? 12288) || (c =? 65279).

Fixpoint trimStart (s : jsstring) : jsstring :=
  match s with
  | c :: r => if isWhiteSpace c then trimStart r else s
  | [] => []
  end.

Definition trimEnd (s : jsstring) : jsstring := rev (trimStart (rev s)).

Definition trim (s : jsstring) : jsstring := trimEnd (trimStart s).

Fixpoint startsWith (p s : jsstring) : bool :=
  match p, s with
  | [], _ => true
  | x :: p', y :: s' => N.eqb x y && startsWith p' s'
  | _ :: _, [] => false
  end.

Definition endsWith (p s : jsstring) : bool := startsWith (rev p) (rev s).

(** [s.replace(/^p/, '')] for a literal [p]. *)
Definition strip_prefix (p s : jsstring) : jsstring :=
  if startsWith p s then skipn (length p) s else s.

(** [s.replace(/p$/, '')] for a literal [p]: the only position at which
    [p] can be followed by the end of the input is [length s - length p]. *)
Definition strip_suffix (p s : jsstring) : jsstring :=
  if endsWith p s then firstn (length s - length p) s else s.

(** [String(n)] for a non-negative integer. *)
Definition Number_toString (n : N) : jsstring :=
  lit (NilEmpty.string_of_uint (N.to_uint n)).

(** [parts.join(sep)] *)
Fixpoint join (sep : jsstring) (parts : list jsstring) : jsstring :=
  match parts with
  | [] => []
  | [p] => p
  | p :: rest => p ++ sep ++ join sep rest
  end.

(** [s.split(sep)] for a one-unit separator. *)
Fixpoint split_on (sep : N) (s : jsstring) (cur : jsstring) : list jsstring :=
  match s with
  | [] => [rev cur]
  | c :: r => if N.eqb c sep then rev cur :: split_on sep r []
              else split_on sep r (c :: cur)
  end.

Definition split (sep : N) (s : jsstring) : list jsstring := split_on sep s [].

(** [s.includes(p)] *)
Fixpoint includes (p s : jsstring) : bool :=
  startsWith p s || match s with [] => false | _ :: r => includes p r end.

(** Truthiness of a string: the empty string is the only falsy one. *)
Definition nonempty (s : jsstring) : bool :=
  match s with [] => false | _ :: _ => true end.

End Js.

Import Js.

(* ===================================================================== *)
(** ** JavaScript objects and values *)
(* ===================================================================== *)

Module Obj.
Local Open Scope N_scope.

(** An ordinary object: its own string-keyed properties in creation order.
    [own_entries] gives them in the order of OrdinaryOwnPropertyKeys: array
    indices first, ascending, then the other keys in creation order. *)
Definition object (A : Type) := list (jsstring * A).

Section Ops.
Variable A : Type.

Fixpoint get (k : jsstring) (o : object A) : option A :=
  match o with
  | [] => None
  | (k', v) :: r => if str_eqb k k' then Some v else get k r
  end.

Definition has (k : jsstring) (o : object A) : bool :=
  match get k o with Some _ => true | None => false end.

(** [o[k] = v]: an existing property keeps its place, a new one goes last. *)
Fixpoint set (k : jsstring) (v : A) (o : object A) : object A :=
  match o with
  | [] => [(k, v)]
  | (k', v') :: r => if str_eqb k k' then (k', v) :: r else (k', v') :: set k v r
  end.

Definition isDigit (c : N) : bool := (48 <=? c) && (c <=? 57).

Fixpoint digits_value (s : jsstring) (acc : N) : N :=
  match s with
  | [] => acc
  | c :: r => digits_value r (10 * acc + (c - 48))
  end.

(** A key is an array index when it is the canonical decimal form of an
    integer in [0, 2^32 - 2]. *)
Definition array_index (k : jsstring) : option N :=
  match k with
  | [] => None
  | c :: r =>
      if forallb isDigit k && (negb (c =? 48) || match r with [] => true | _ => false end)
         && (length k <=? 10)%nat
      then let n := digits_value k 0 in
           if n <=? 4294967294 then Some n else None
      else None
  end.

Definition is_index (k : jsstring) : bool :=
  match array_index k with Some _ => true | None => false end.

Definition index_of (k : jsstring) : N :=
  match array_index k with Some n => n | None => 0 end.

Fixpoint insert_by_index (e : jsstring * A) (l : object A) : object A :=
  match l with
  | [] => [e]
  | e' :: r => if index_of (fst e) <=? index_of (fst e') then e :: l
               else e' :: insert_by_index e r
  end.

Fixpoint sort_by_index (l : object A) : object A :=
  match l with
  | [] => []
  | e :: r => insert_by_index e (sort_by_index r)
  end.

Definition own_entries (o : object A) : object A :=
  sort_by_index (filter (fun e => is_index (fst e)) o)
  ++ filter (fun e => negb (is_index (fst e))) o.

Definition keys (o : object A) : list jsstring := map fst (own_entries o).
Definition values (o : object A) : list A := map snd (own_entries o).

(** [{ ...o, [k]: v }]: the copy receives the properties of [o] in key order. *)
Definition spread_set (o : object A) (k : jsstring) (v : A) : object A :=
  set k v (own_entries o).

End Ops.

End Obj.

(** The values a parsed reply is made of, plus [undefined]. A number keeps
    its decimal literal [m * 10^e]; an array can carry named properties
    besides its elements, as every JavaScript array can. *)
#[warnings="-register-all"] Inductive value : Type :=
| VUndefined
| VNull
| VBool (b : bool)
| VNum (m e : Z)
| VStr (s : jsstring)
| VArr (elems : list value) (named : Obj.object value)
| VObj (props : Obj.object value).

(** A decimal [m * 10^e] converts to the Number zero when it is at most
    [2^-1075] in magnitude (round to nearest, ties to even). *)
Definition rounds_to_zero (m e : Z) : bool :=
  if (0 <=? e)%Z then (m =? 0)%Z
  else (Z.abs m * 2 ^ 1075 <=? 10 ^ (- e))%Z.

(** ToBoolean *)
Definition truthy (v : value) : bool :=
  match v with
  | VUndefined | VNull => false
  | VBool b => b
  | VNum m e => negb (rounds_to_zero m e)
  | VStr s => nonempty s
  | VArr _ _ | VObj _ => true
  end.

(** [v.k] on a value that is neither [null] nor [undefined], for the property
    names this program reads ([status], [message], [fields], [analysis],
    [final_output], [grounding_links]): none of them is inherited from a
    prototype, so only own properties answer. *)
Definition prop (k : jsstring) (v : value) : value :=
  match v with
  | VObj o => match Obj.get k o with Some x => x | None => VUndefined end
  | VArr _ named => match Obj.get k named with Some x => x | None => VUndefined end
  | _ => VUndefined
  end.

(** [v === s] for a string literal [s]. *)
Definition strict_eq_str (v : value) (s : jsstring) : bool :=
  match v with VStr t => str_eqb t s | _ => false end.

(* ===================================================================== *)
(** ** [JSON.parse] *)
(* ===================================================================== *)

(** The platform's [JSON.parse] (ECMA-404 grammar, as ECMA-262 applies it):
    a recursive-descent reader over code units. [None] is a SyntaxError.
    Objects are built property by property, so a repeated key keeps its first
    position and its last value. *)
Module JSON.
Local Open Scope N_scope.

Definition is_ws (c : N) : bool :=
  (c =? 32) || (c =? 9) || (c =? 10) || (c =? 13).

Fixpoint skip_ws (s : jsstring) : jsstring :=
  match s with
  | c :: r => if is_ws c then skip_ws r else s
  | [] => []
  end.

Definition hex_digit (c : N) : option N :=
  if (48 <=? c) && (c <=? 57) then Some (c - 48)
  else if (65 <=? c) && (c <=? 70) then Some (c - 55)
  else if (97 <=? c) && (c <=? 102) then Some (c - 87)
  else None.

Definition hex4 (a b c d : N) : option N :=
  match hex_digit a, hex_digit b, hex_digit c, hex_digit d with
  | Some x, Some y, Some z, Some w => Some (4096 * x + 256 * y + 16 * z + w)
  | _, _, _, _ => None
  end.

Definition simple_escape (c : N) : option N :=
  if c =? 34 then Some 34            (* quotation mark *)
  else if c =? 92 then Some 92       (* reverse solidus *)
  else if c =? 47 then Some 47       (* solidus *)
  else if c =? 98 then Some 8        (* b: backspace *)
  else if c =? 102 then Some 12      (* f: form feed *)
  else if c =? 110 then Some 10      (* n: line feed *)
  else if c =? 114 then Some 13      (* r: carriage return *)
  else if c =? 116 then Some 9       (* t: tab *)
  else None.

(** The characters of a string after its opening quote, up to and
    including the closing quote. *)
Fixpoint string_chars (s : jsstring) (acc : jsstring) : option (jsstring * jsstring) :=
  match s with
  | [] => None
  | c :: r =>
      if c =? 34 then Some (rev acc, r)
      else if c =? 92 then
        match r with
        | [] => None
        | x :: r1 =>
            if x =? 117 then
              match r1 with
              | h1 :: h2 :: h3 :: h4 :: r2 =>
                  match hex4 h1 h2 h3 h4 with
                  | Some u => string_chars r2 (u :: acc)
                  | None => None
                  end
              | _ => None
              end
            else
              match simple_escape x with
              | Some u => string_chars r1 (u :: acc)
              | None => None
              end
        end
      else if c <? 32 then None
      else string_chars r (c :: acc)
  end.

Fixpoint take_digits (s : jsstring) (acc : jsstring) : jsstring * jsstring :=
  match s with
  | c :: r => if Obj.isDigit c then take_digits r (c :: acc) else (rev acc, s)
  | [] => (rev acc, [])
  end.

Definition Z_of_digits (ds : jsstring) : Z := Z.of_N (Obj.digits_value ds 0).

(** A number: an optional minus sign; an integer part that is either 0 or
    starts with a non-zero digit; an optional fraction (a point and at least
    one digit); an optional exponent (e or E, an optional sign, at least one
    digit). *)
Definition parse_number (s : jsstring) : option (value * jsstring) :=
  let (neg, s1) := match s with
                   | c :: r => if c =? 45 then (true, r) else (false, s)
                   | [] => (false, s)
                   end in
  let (int, s2) := take_digits s1 [] in
  match int with
  | [] => None
  | d :: ds =>
      if (d =? 48) && nonempty ds then None
      else
        let fr := match s2 with
                  | c :: r => if c =? 46
                              then let (f, s3) := take_digits r [] in
                                   match f with [] => None | _ => Some (f, s3) end
                              else Some ([], s2)
                  | [] => Some ([], s2)
                  end in
        match fr with
        | None => None
        | Some (frac, s3) =>
            let ex := match s3 with
                      | c :: r =>
                          if (c =? 101) || (c =? 69) then
                            let (eneg, r1) := match r with
                                              | x :: r' => if x =? 45 then (true, r')
                                                           else if x =? 43 then (false, r')
                                                           else (false, r)
                                              | [] => (false, r)
                                              end in
                            let (e, s4) := take_digits r1 [] in
                            match e with
                            | [] => None
                            | _ => Some ((if eneg then - Z_of_digits e else Z_of_digits e)%Z, s4)
                            end
                          else Some (0%Z, s3)
                      | [] => Some (0%Z, s3)
                      end in
            match ex with
            | None => None
            | Some (e, s4) =>
                let m := Z_of_digits (int ++ frac) in
                Some (VNum (if neg then - m else m)%Z (e - Z.of_nat (length frac))%Z, s4)
            end
        end
  end.

Fixpoint parse_value (fuel : nat) (s : jsstring) : option (value * jsstring) :=
  match fuel with
  | O => None
  | S f =>
      match skip_ws s with
      | [] => None
      | c :: r =>
          if c =? 123 then                                   (* { *)
            match skip_ws r with
            | c1 :: r1 => if c1 =? 125 then Some (VObj [], r1)
                          else parse_members f r []
            | [] => None
            end
          else if c =? 91 then                               (* [ *)
            match skip_ws r with
            | c1 :: r1 => if c1 =? 93 then Some (VArr [] [], r1)
                          else parse_elements f r []
            | [] => None
            end
          else if c =? 34 then
            match string_chars r [] with
            | Some (str, r1) => Some (VStr str, r1)
            | None => None
            end
          else if startsWith (lit "true") (c :: r) then Some (VBool true, skipn 4 (c :: r))
          else if startsWith (lit "false") (c :: r) then Some (VBool false, skipn 5 (c :: r))
          else if startsWith (lit "null") (c :: r) then Some (VNull, skipn 4 (c :: r))
          else parse_number (c :: r)
      end
  end

with parse_elements (fuel : nat) (s : jsstring) (acc : list value)
  : option (value * jsstring) :=
  match fuel with
  | O => None
  | S f =>
      match parse_value f s with
      | None => None
      | Some (v, r) =>
          match skip_ws r with
          | c :: r1 =>
              if c =? 44 then parse_elements f r1 (v :: acc)
              else if c =? 93 then Some (VArr (rev (v :: acc)) [], r1)
              else None
          | [] => None
          end
      end
  end

with parse_members (fuel : nat) (s : jsstring) (acc : Obj.object value)
  : option (value * jsstring) :=
  match fuel with
  | O => None
  | S f =>
      match skip_ws s with
      | c :: r =>
          if c =? 34 then
            match string_chars r [] with
            | None => None
            | Some (k, r1) =>
                match skip_ws r1 with
                | c1 :: r2 =>
                    if c1 =? 58 then
                      match parse_value f r2 with
                      | None => None
                      | Some (v, r3) =>
                          match skip_ws r3 with
                          | c2 :: r4 =>
                              if c2 =? 44 then parse_members f r4 (Obj.set k v acc)
                              else if c2 =? 125 then Some (VObj (Obj.set k v acc), r4)
                              else None
                          | [] => None
                          end
                      end
                    else None
                | [] => None
                end
            end
          else None
      | [] => None
      end
  end.

(** [JSON.parse(text)]: one value, surrounded by optional white space. *)
Definition parse (text : jsstring) : option value :=
  match parse_value (2 * length text + 2) text with
  | Some (v, rest) => match skip_ws rest with [] => Some v | _ :: _ => None end
  | None => None
  end.

End JSON.

(* ===================================================================== *)
(** ** Thrown errors *)
(* ===================================================================== *)

Inductive Error : Type :=
| ReadError          (* a FileReader [onerror] *)
| ApiError           (* [ai.models.generateContent] rejected *)
| NullResponse       (* Error("Null response from inference engine.") *)
| SchemaMismatch     (* Error("Model failed to adhere to the requested response schema.") *)
| TypeError.         (* a property read on [null], a property written on a primitive
                        in strict mode, or a call of something that is no function *)

Inductive result (A : Type) : Type :=
| Ok (a : A)
| Throw (e : Error).

Arguments Ok {A} a.
Arguments Throw {A} e.

Definition bind {A B : Type} (r : result A) (k : A -> result B) : result B :=
  match r with
  | Ok a => k a
  | Throw e => Throw e
  end.

Notation "x <- r ;; k" := (bind r (fun x => k))
  (at level 61, r at next level, right associativity).

Definition is_ok {A : Type} (r : result A) : bool :=
  match r with Ok _ => true | Throw _ => false end.

(** [Promise.all]: the results in order, or the first rejection. *)
Fixpoint Promise_all {A : Type} (ps : list (result A)) : result (list A) :=
  match ps with
  | [] => Ok []
  | p :: rest => x <- p ;; xs <- Promise_all rest ;; Ok (x :: xs)
  end.

(* ===================================================================== *)
(** ** types.ts *)
(* ===================================================================== *)

Inductive FieldType : Type := TEXT | NUMBER | DATE | TEXTAREA | FILE | SELECT.

Record UIField : Type := {
  id : jsstring;
  type : FieldType;
  label : jsstring;
  placeholder : option jsstring;
  options : option (list jsstring);
  description : option jsstring;
  required : option bool
}.

Record Attachment : Type := {
  mimeType : jsstring;
  data : option jsstring           (* Base64 text; [None] is [undefined] *)
}.

Inductive Role : Type := user | ai.

(** A [ChatMessage]. An optional property that is absent reads [undefined]
    ([VUndefined], or [None] where the property is typed). *)
Record ChatMessage : Type := {
  msg_id : jsstring;
  role : Role;
  content : value;
  uiFields : value;
  analysis : value;
  final_output : value;
  formData : option (Obj.object jsstring);
  groundingLinks : value;
  attachments : option (list Attachment)
}.

(* ===================================================================== *)
(** ** services/geminiService.ts *)
(* ===================================================================== *)

Module GeminiService.
Local Open Scope N_scope.

Definition fence_json : jsstring := lit "```json".
Definition fence : jsstring := lit "```".

Definition cleanJsonOutput (text : jsstring) : jsstring :=
  let cleaned := trim text in
  let cleaned :=
    if startsWith fence_json cleaned
    then strip_suffix fence (strip_prefix fence_json cleaned)
    else if startsWith fence cleaned
    then strip_suffix fence (strip_prefix fence cleaned)
    else cleaned in
  trim cleaned.

(** One part of a turn. The text of a model turn is
    [JSON.stringify(aiResponse)]; the part records the value serialised. *)
Inductive Part : Type :=
| TextPart (text : jsstring)
| InlineData (inlineData : Attachment)
| StringifiedPart (v : value).

Record Content : Type := {
  content_role : jsstring;
  parts : list Part
}.

Inductive Tool : Type := googleSearch | urlContext.

(** The argument of [ai.models.generateContent]; the constant entries of
    [config] (system instruction, response schema and MIME type,
    temperature 1, media resolution) are left out. *)
Record GenerateContentParameters : Type := {
  model : jsstring;
  contents : list Content;
  tools : list Tool;
  thinkingLevel : jsstring
}.

Record Web : Type := {
  uri : option jsstring;
  title : option jsstring
}.

Record GroundingChunk : Type := { web : option Web }.

Record UrlMetadata : Type := {
  retrievedUrl : option jsstring;
  retrieved_url : option jsstring
}.

(** What the adapter reads of a [GenerateContentResponse]:
    [response.text], [candidates?.[0]?.groundingMetadata?.groundingChunks]
    and [candidates?.[0]?.urlContextMetadata?.urlMetadata]. *)
Record GenerateContentResponse : Type := {
  text : option jsstring;
  groundingChunks : option (list GroundingChunk);
  urlMetadata : option (list UrlMetadata)
}.

Record NewInput : Type := {
  input_text : option jsstring;
  input_files : option (list Attachment)
}.

(** ToBoolean of an optional string. *)
Definition truthy_str (s : option jsstring) : bool :=
  match s with Some t => nonempty t | None => false end.

(** [a || b] on optional strings. *)
Definition or_str (a b : option jsstring) : option jsstring :=
  if truthy_str a then a else b.

(** [a || d] for an optional string and a string literal. *)
Definition or_default (a : option jsstring) (d : jsstring) : jsstring :=
  match a with
  | Some t => if nonempty t then t else d
  | None => d
  end.

(** [/(https?:\/\/[^\s]+)/] matched at the start of [s]. The optional [s]
    cannot be a colon, so at most one of the two branches matches. *)
Definition after_scheme (s : jsstring) : bool :=
  startsWith (lit "://") s
  && match skipn 3 s with
     | c :: _ => negb (isWhiteSpace c)
     | [] => false
     end.

Definition url_here (s : jsstring) : bool :=
  startsWith (lit "http") s
  && match skipn 4 s with
     | c :: r => ((c =? 115) && after_scheme r) || after_scheme (c :: r)
     | [] => false
     end.

(** [urlRegex.test(text)] on a fresh regular expression ([lastIndex] 0):
    some position of [text] starts a match. *)
Fixpoint urlRegex_test (s : jsstring) : bool :=
  url_here s || match s with [] => false | _ :: r => urlRegex_test r end.

Definition currentParts (newInput : NewInput) : list Part :=
  (if truthy_str (input_text newInput)
   then match input_text newInput with Some t => [TextPart t] | None => [] end
   else [])
  ++ match input_files newInput with
     | Some fs => map (fun f => InlineData {| mimeType := mimeType f; data := data f |}) fs
     | None => []
     end.

Definition hasUrl (newInput : NewInput) : bool :=
  match input_text newInput with
  | Some t => nonempty t && urlRegex_test t
  | None => false
  end.

Definition select_tools (newInput : NewInput) : list Tool :=
  [googleSearch] ++ (if hasUrl newInput then [urlContext] else []).

Definition level (modelName : jsstring) : jsstring :=
  if includes (lit "flash") modelName then lit "MEDIUM" else lit "HIGH".

(** The request of the one [generateContent] call. *)
Definition request (history : list Content) (newInput : NewInput)
    (modelName : jsstring) : GenerateContentParameters :=
  {| model := modelName;
     contents := history ++ [{| content_role := lit "user"; parts := currentParts newInput |}];
     tools := select_tools newInput;
     thinkingLevel := level modelName |}.

Definition grounding_links : jsstring := lit "grounding_links".

Definition link (u : option jsstring) (t : jsstring) : value :=
  VObj [(lit "uri", match u with Some s => VStr s | None => VUndefined end);
        (lit "title", VStr t)].

(** [chunks.filter(chunk => chunk.web)], each kept chunk seen through its
    [web] record. *)
Definition webs (chunks : list GroundingChunk) : list Web :=
  flat_map (fun chunk => match web chunk with Some w => [w] | None => [] end) chunks.

Definition search_links (chunks : list GroundingChunk) : list value :=
  map (fun w => link (uri w) (or_default (title w) (lit "External Source")))
      (webs chunks).

Definition url_links (metas : list UrlMetadata) : list value :=
  map (fun meta => link (or_str (retrievedUrl meta) (retrieved_url meta))
                     (lit "Retrieved Page Context")) metas.

(** [jsonResponse.k = v] *)
Definition assign (k : jsstring) (v : value) (target : value) : result value :=
  match target with
  | VObj o => Ok (VObj (Obj.set k v o))
  | VArr es named => Ok (VArr es (Obj.set k v named))
  | _ => Throw TypeError
  end.

(** [if (!jsonResponse.grounding_links) jsonResponse.grounding_links = []] *)
Definition default_links (jsonResponse : value) : result value :=
  match jsonResponse with
  | VNull | VUndefined => Throw TypeError
  | _ => if truthy (prop grounding_links jsonResponse) then Ok jsonResponse
         else assign grounding_links (VArr [] []) jsonResponse
  end.

(** [jsonResponse.grounding_links.push(...links)] *)
Definition push_links (links : list value) (jsonResponse : value) : result value :=
  match prop grounding_links jsonResponse with
  | VArr es named => assign grounding_links (VArr (es ++ links) named) jsonResponse
  | _ => Throw TypeError
  end.

(** The links taken from the grounding metadata of a response. *)
Definition metadata_links (response : GenerateContentResponse) : list value :=
  match groundingChunks response with Some chunks => search_links chunks | None => [] end
  ++ match urlMetadata response with Some metas => url_links metas | None => [] end.

(** An [async] computation that awaits [generateContent] calls. *)
Inductive Async (A : Type) : Type :=
| Done (a : A)
| Await (req : GenerateContentParameters)
        (k : result GenerateContentResponse -> Async A).

Arguments Done {A} a.
Arguments Await {A} req k.

(** What [sendMessageToGemini] does with the settled call. *)
Definition receive (settled : result GenerateContentResponse) : result value :=
  response <- settled ;;
  match text response with
  | None => Throw NullResponse
  | Some t =>
      if negb (nonempty t) then Throw NullResponse
      else
        jsonResponse <- match JSON.parse (cleanJsonOutput t) with
                        | Some v => Ok v
                        | None => Throw SchemaMismatch
                        end ;;
        jsonResponse <- default_links jsonResponse ;;
        jsonResponse <- match groundingChunks response with
                        | Some chunks => push_links (search_links chunks) jsonResponse
                        | None => Ok jsonResponse
                        end ;;
        jsonResponse <- match urlMetadata response with
                        | Some metas => push_links (url_links metas) jsonResponse
                        | None => Ok jsonResponse
                        end ;;
        Ok jsonResponse
  end.

Definition sendMessageToGemini (history : list Content) (newInput : NewInput)
    (modelName : jsstring) : Async (result value) :=
  Await (request history newInput modelName) (fun settled => Done (receive settled)).

(** Running an [async] computation against a service that settles its
    calls from a script: the value, the requests made, the script left. *)
Fixpoint run {A : Type} (c : Async A) (script : list (result GenerateContentResponse))
  : A * list GenerateContentParameters * list (result GenerateContentResponse) :=
  match c with
  | Done a => (a, [], script)
  | Await req k =>
      let '(settled, rest) := match script with
                              | s :: rest => (s, rest)
                              | [] => (Throw ApiError, [])
                              end in
      let '(a, reqs, unused) := run (k settled) rest in
      (a, req :: reqs, unused)
  end.

End GeminiService.

(* ===================================================================== *)
(** ** Files and form values *)
(* ===================================================================== *)

(** A DOM [File]: its [name], its [type], and what a [FileReader] gives for
    [readAsDataURL]: the data URL, or an error. *)
Record File : Type := {
  name : jsstring;
  file_type : jsstring;
  dataURL : result jsstring
}.

(** The [value] a field hands to [onChange]: a string, or [null]. *)
Inductive FieldValue : Type :=
| FNull
| FStr (s : jsstring).

Definition truthy_field (v : option FieldValue) : bool :=
  match v with
  | Some (FStr s) => nonempty s
  | Some FNull | None => false
  end.

(** The string a template literal makes of a field value. *)
Definition String_of (v : FieldValue) : jsstring :=
  match v with
  | FNull => lit "null"
  | FStr s => s
  end.

(* ===================================================================== *)
(** ** The [App] component *)
(* ===================================================================== *)

Module App.
Import GeminiService.
Local Open Scope N_scope.

(** [reader.result.split(',')[1]], or the reader's error. *)
Definition fileToBase64 (file : File) : result (option jsstring) :=
  r <- dataURL file ;; Ok (nth_error (split 44 r) 1).

Record AppState : Type := {
  messages : list ChatMessage;
  input : jsstring;
  isLoading : bool;
  loadingStep : jsstring;
  aiHistory : list Content;
  stagedFiles : list File
}.

Definition setMessages (f : list ChatMessage -> list ChatMessage) (st : AppState) :=
  {| messages := f (messages st); input := input st; isLoading := isLoading st;
     loadingStep := loadingStep st; aiHistory := aiHistory st;
     stagedFiles := stagedFiles st |}.

Definition setInput (v : jsstring) (st : AppState) :=
  {| messages := messages st; input := v; isLoading := isLoading st;
     loadingStep := loadingStep st; aiHistory := aiHistory st;
     stagedFiles := stagedFiles st |}.

Definition setIsLoading (b : bool) (st : AppState) :=
  {| messages := messages st; input := input st; isLoading := b;
     loadingStep := loadingStep st; aiHistory := aiHistory st;
     stagedFiles := stagedFiles st |}.

Definition setLoadingStep (v : jsstring) (st : AppState) :=
  {| messages := messages st; input := input st; isLoading := isLoading st;
     loadingStep := v; aiHistory := aiHistory st;
     stagedFiles := stagedFiles st |}.

Definition setAiHistory (f : list Content -> list Content) (st : AppState) :=
  {| messages := messages st; input := input st; isLoading := isLoading st;
     loadingStep := loadingStep st; aiHistory := f (aiHistory st);
     stagedFiles := stagedFiles st |}.

Definition setStagedFiles (f : list File -> list File) (st : AppState) :=
  {| messages := messages st; input := input st; isLoading := isLoading st;
     loadingStep := loadingStep st; aiHistory := aiHistory st;
     stagedFiles := f (stagedFiles st) |}.

Definition plain (i : jsstring) (r : Role) (c : jsstring) : ChatMessage :=
  {| msg_id := i; role := r; content := VStr c;
     uiFields := VUndefined; analysis := VUndefined; final_output := VUndefined;
     formData := None; groundingLinks := VUndefined; attachments := None |}.

Definition init_message : ChatMessage :=
  plain (lit "init") ai
    (lit "What's your goal? Describe what you're working on or a problem you're facing, and I'll help you give me the right context for better AI answers.").

Definition initial : AppState :=
  {| messages := [init_message]; input := []; isLoading := false;
     loadingStep := lit "Thinking..."; aiHistory := []; stagedFiles := [] |}.

Definition resetChat (st : AppState) : AppState :=
  setStagedFiles (fun _ => [])
    (setAiHistory (fun _ => [])
       (setLoadingStep (lit "Thinking...")
          (setIsLoading false
             (setInput [] (setMessages (fun _ => [init_message]) st))))).

(** [prev.filter((_, i) => i !== index)] *)
Fixpoint remove_at {A : Type} (index : nat) (l : list A) : list A :=
  match l, index with
  | [], _ => []
  | _ :: r, O => r
  | x :: r, S i => x :: remove_at i r
  end.

Definition removeStagedFile (index : nat) (st : AppState) : AppState :=
  setStagedFiles (remove_at index) st.

(** What a send still needs once its request is out: the text and the
    encoded files its closure holds. *)
Record Pending : Type := {
  sent_text : jsstring;
  processedFiles : list Attachment
}.

(** How a call of [handleSend] gets on, up to its await of the model:
    it returns at the guard; or the promise rejects while the files are read
    (nothing has been set); or the user message is committed and the request
    issued. *)
Inductive Begun : Type :=
| Returned
| Rejected (e : Error)
| Sent (st' : AppState) (call : Async (result value)) (k : Pending).

Definition flash : jsstring := lit "gemini-3-flash-preview".
Definition pro : jsstring := lit "gemini-3-pro-preview".

Definition newUserMsg (now : N) (text : jsstring) (allFiles : list File)
    (processed : list Attachment) : ChatMessage :=
  {| msg_id := Number_toString now;
     role := user;
     content := VStr text;
     uiFields := VUndefined; analysis := VUndefined; final_output := VUndefined;
     formData := if (0 <? length allFiles)%nat
                 then Some [(lit "Attachments", join (lit ", ") (map name allFiles))]
                 else None;
     groundingLinks := VUndefined;
     attachments := Some processed |}.

(** [handleSend] up to [await sendMessageToGemini(...)]. [st] is the state
    the handler's closure sees, and the state its setters apply to: no other
    event is handled while the files are being read. [now] is [Date.now()]. *)
Definition handleSend (text : jsstring) (files : list File) (modelName : jsstring)
    (loadingOverride : option jsstring) (now : N) (st : AppState) : Begun :=
  let allFiles := files ++ stagedFiles st in
  if negb (nonempty (trim text)) && (length allFiles =? 0)%nat then Returned
  else
    let isFirstStep := (length (messages st) <=? 1)%nat in
    let defaultLoadingText :=
      if isFirstStep then lit "Generating visual interface..."
      else lit "Let me think about it..." in
    let currentLoadingText := or_default loadingOverride defaultLoadingText in
    match Promise_all (map (fun f => d <- fileToBase64 f ;;
                                     Ok {| mimeType := file_type f; data := d |})
                           allFiles) with
    | Throw e => Rejected e
    | Ok processed =>
        let st1 := setMessages (fun prev => prev ++ [newUserMsg now text allFiles processed]) st in
        let st2 := setInput [] st1 in
        let st3 := setStagedFiles (fun _ => []) st2 in
        let st4 := setIsLoading true st3 in
        let st5 := setLoadingStep (lit "Reviewing context...") st4 in
        let st6 := setLoadingStep currentLoadingText st5 in
        Sent st6
             (sendMessageToGemini (aiHistory st)
                {| input_text := Some text; input_files := Some processed |} modelName)
             {| sent_text := text; processedFiles := processed |}
    end.

Definition userTurn (k : Pending) : Content :=
  {| content_role := lit "user";
     parts := TextPart (sent_text k) :: map InlineData (processedFiles k) |}.

Definition modelTurn (aiResponse : value) : Content :=
  {| content_role := lit "model"; parts := [StringifiedPart aiResponse] |}.

Definition newAiMsg (now : N) (aiResponse : value) : ChatMessage :=
  {| msg_id := Number_toString (now + 1);
     role := ai;
     content := prop (lit "message") aiResponse;
     uiFields := if strict_eq_str (prop (lit "status") aiResponse) (lit "COLLECTING")
                 then prop (lit "fields") aiResponse else VUndefined;
     analysis := if strict_eq_str (prop (lit "status") aiResponse) (lit "COMPLETE")
                 then prop (lit "analysis") aiResponse else VUndefined;
     final_output := if strict_eq_str (prop (lit "status") aiResponse) (lit "COMPLETE")
                     then prop (lit "final_output") aiResponse else VUndefined;
     formData := None;
     groundingLinks := prop grounding_links aiResponse;
     attachments := None |}.

Definition fallback (now : N) : ChatMessage :=
  plain (Number_toString now) ai
    (lit "I ran into a small issue. Could you try re-stating your goal?").

(** [handleSend] from the moment [sendMessageToGemini] settles: the [try]
    body after the await, the [catch] and the [finally]. [st] is the state
    at that moment; the setters are functional updates of it. *)
Definition settle (k : Pending) (outcome : result value) (now : N)
    (st : AppState) : AppState :=
  let st1 :=
    match outcome with
    | Ok aiResponse =>
        let st' := setAiHistory (fun prev => prev ++ [userTurn k; modelTurn aiResponse]) st in
        setMessages (fun prev => prev ++ [newAiMsg now aiResponse]) st'
    | Throw _ =>
        setMessages (fun prev => prev ++ [fallback now]) st
    end in
  setLoadingStep (lit "Thinking...") (setIsLoading false st1).

Definition additional_text : jsstring := lit "additional_text".

Definition handleFormSubmit (data : Obj.object FieldValue) (files : list File)
    (useTurbo : bool) (now : N) (st : AppState) : Begun :=
  let summaryParts :=
    (if (0 <? length files)%nat
     then [Number_toString (N.of_nat (length files)) ++ lit " attachment(s)"] else [])
    ++ (if truthy_field (Obj.get additional_text data)
        then [lit "additional details"] else []) in
  let summary :=
    lit "Here is the user provided context"
    ++ (if (0 <? length summaryParts)%nat
        then lit " (" ++ join (lit ", ") summaryParts ++ lit ")" else [])
    ++ lit ":" in
  let dataString :=
    join [10]
      (map (fun e => fst e ++ lit ": " ++ String_of (snd e))
         (filter (fun e => negb (str_eqb (fst e) additional_text))
            (Obj.own_entries data))) in
  let finalMessage :=
    summary ++ [10; 10]
    ++ (if truthy_field (Obj.get additional_text data)
        then lit "Extra info: "
             ++ match Obj.get additional_text data with
                | Some v => String_of v
                | None => []
                end ++ [10]
        else [])
    ++ [10] ++ lit "Details:" ++ [10] ++ dataString in
  let model := if useTurbo then pro else flash in
  handleSend finalMessage files model (Some (lit "Thinking and Analyzing...")) now st.

(** The submit button is disabled on
    [(!input.trim() && stagedFiles.length === 0) || isLoading]. *)
Definition submit_disabled (st : AppState) : bool :=
  (negb (nonempty (trim (input st))) && (length (stagedFiles st) =? 0)%nat)
  || isLoading st.

(** The ways the user reaches the send pipeline. *)
Inductive EntryPoint : Type :=
| ClickSubmit                                   (* the form's submit button *)
| KeyDown (key : jsstring) (shiftKey : bool)    (* a key in the text area *)
| FormSubmit (data : Obj.object FieldValue) (files : list File) (useTurbo : bool).
                                                (* [onSubmit] of the generated form *)

(** The generated form is rendered for the last message only, when that one
    is an assistant message with [uiFields]. *)
Definition form_shown (st : AppState) : bool :=
  match last (map Some (messages st)) None with
  | Some m => match role m with
              | ai => truthy (uiFields m)
              | user => false
              end
  | None => false
  end.

(** The handler each entry point runs. A disabled button submits nothing,
    a form that is not rendered cannot be submitted, and a key other than
    an unshifted Enter only edits the text. *)
Definition enter (ep : EntryPoint) (now : N) (st : AppState) : Begun :=
  match ep with
  | ClickSubmit =>
      if submit_disabled st then Returned
      else handleSend (input st) [] flash None now st
  | KeyDown key shiftKey =>
      if str_eqb key (lit "Enter") && negb shiftKey
      then handleSend (input st) [] flash None now st
      else Returned
  | FormSubmit data files useTurbo =>
      if form_shown st then handleFormSubmit data files useTurbo now st
      else Returned
  end.

End App.

(* ===================================================================== *)
(** ** Numbers *)
(* ===================================================================== *)

Module Num.

(** The Number of a length or a count. *)
Definition of_nat (n : nat) : float := PrimFloat.of_uint63 (Uint63.of_Z (Z.of_nat n)).

(** [Math.round]: the integer nearest to [x], a tie going up; a result that
    is zero keeps the sign of [x]; NaN, the infinities, the zeros and the
    Numbers that are integers already are returned as they are. *)
Definition Math_round (x : float) : float :=
  match Prim2SF x with
  | S754_finite s m e =>
      if (0 <=? e)%Z then x
      else
        let sm := if s then Z.neg m else Z.pos m in
        let z := ((2 * sm + 2 ^ (- e)) / 2 ^ (- e + 1))%Z in
        if (z =? 0)%Z then (if s then PrimFloat.opp PrimFloat.zero else PrimFloat.zero)
        else if (z <? 0)%Z then PrimFloat.opp (PrimFloat.of_uint63 (Uint63.of_Z (- z)))
        else PrimFloat.of_uint63 (Uint63.of_Z z)
  | _ => x
  end.

End Num.

(* ===================================================================== *)
(** ** The [DynamicField] and [GenerativeForm] components *)
(* ===================================================================== *)

Module GenerativeForm.

Record FormState : Type := {
  formData : Obj.object FieldValue;
  fileData : Obj.object File;
  additionalText : jsstring;
  additionalFiles : list File
}.

Definition empty : FormState :=
  {| formData := []; fileData := []; additionalText := []; additionalFiles := [] |}.

Definition setFormData (f : Obj.object FieldValue -> Obj.object FieldValue) (st : FormState) :=
  {| formData := f (formData st); fileData := fileData st;
     additionalText := additionalText st; additionalFiles := additionalFiles st |}.

Definition setFileData (f : Obj.object File -> Obj.object File) (st : FormState) :=
  {| formData := formData st; fileData := f (fileData st);
     additionalText := additionalText st; additionalFiles := additionalFiles st |}.

Definition setAdditionalText (f : jsstring -> jsstring) (st : FormState) :=
  {| formData := formData st; fileData := fileData st;
     additionalText := f (additionalText st); additionalFiles := additionalFiles st |}.

Definition setAdditionalFiles (f : list File -> list File) (st : FormState) :=
  {| formData := formData st; fileData := fileData st;
     additionalText := additionalText st; additionalFiles := f (additionalFiles st) |}.

Definition handleChange (id : jsstring) (value : FieldValue) (file : option File)
    (st : FormState) : FormState :=
  let st1 := setFormData (fun prev => Obj.spread_set prev id value) st in
  match file with
  | Some f => setFileData (fun prev => Obj.spread_set prev id f) st1
  | None => st1
  end.

(** [handleDrop] and [handleManualFileSelect], given the files of the event. *)
Definition handleDrop (files : list File) (st : FormState) : FormState :=
  if (0 <? length files)%nat
  then setAdditionalFiles (fun prev => prev ++ files) st
  else st.

Definition handleManualFileSelect (files : list File) (st : FormState) : FormState :=
  if (0 <? length files)%nat
  then setAdditionalFiles (fun prev => prev ++ files) st
  else st.

Definition removeAdditionalFile (indexToRemove : nat) (st : FormState) : FormState :=
  setAdditionalFiles (App.remove_at indexToRemove) st.

Definition handleDictation (text : jsstring) (st : FormState) : FormState :=
  setAdditionalText (fun prev => if nonempty (trim prev) then prev ++ lit " " ++ text
                                 else text) st.

(** The arguments [handleSubmit] calls [onSubmit] with. *)
Record Submission : Type := {
  data : Obj.object FieldValue;
  files : list File;
  useTurbo : bool
}.

Definition handleSubmit (useTurbo : bool) (st : FormState) : Submission :=
  let dynamicFiles := Obj.values (fileData st) in
  let allFiles := dynamicFiles ++ additionalFiles st in
  let finalData := Obj.spread_set (formData st) App.additional_text
                     (FStr (additionalText st)) in
  {| data := finalData; files := allFiles; useTurbo := useTurbo |}.

Definition completedCount (st : FormState) : nat :=
  length (filter (fun k => truthy_field (Obj.get k (formData st)))
            (Obj.keys (formData st))).

Definition progress (fields : list UIField) (st : FormState) : float :=
  Num.Math_round
    (PrimFloat.mul (PrimFloat.div (Num.of_nat (completedCount st))
                                  (Num.of_nat (length fields)))
                   (Num.of_nat 100)).

(** What a rendered [DynamicField] does to the form. *)
Inductive FieldEvent : Type :=
| Typed (v : jsstring)       (* an input, a text area or a select changes *)
| FileChosen (f : File)      (* a file is picked or dropped on a file field *)
| FileRemoved.               (* the remove button of a file field *)

Definition onChange (field : UIField) (ev : FieldEvent) (st : FormState) : FormState :=
  match ev with
  | Typed v => handleChange (id field) (FStr v) None st
  | FileChosen f => handleChange (id field) (FStr (name f)) (Some f) st
  | FileRemoved => handleChange (id field) FNull None st
  end.

(** What the user can do to an open form before submitting it. *)
Inductive FormEvent : Type :=
| OnField (field : UIField) (ev : FieldEvent)
| Notes (v : jsstring)                        (* typing in the notes area *)
| Dictation (text : jsstring)
| Drop (fs : list File)
| ManualFileSelect (fs : list File)
| RemoveAdditionalFile (index : nat).

Definition handle (st : FormState) (ev : FormEvent) : FormState :=
  match ev with
  | OnField field e => onChange field e st
  | Notes v => setAdditionalText (fun _ => v) st
  | Dictation text => handleDictation text st
  | Drop fs => handleDrop fs st
  | ManualFileSelect fs => handleManualFileSelect fs st
  | RemoveAdditionalFile i => removeAdditionalFile i st
  end.

(** The form after a sequence of events, starting empty. *)
Definition after (evs : list FormEvent) : FormState := fold_left handle evs empty.

End GenerativeForm.

(* ===================================================================== *)
(** ** Observations and the properties as the specification words them *)
(* ===================================================================== *)

Module Observe.
Import GeminiService App.

(** The application state once a handler has returned. *)
Definition state_after (st : AppState) (b : Begun) : AppState :=
  match b with
  | Sent st' _ _ => st'
  | Returned | Rejected _ => st
  end.

(** The requests a handler sends to the model, whatever the answers. *)
Definition issued (b : Begun) : list GenerateContentParameters :=
  match b with
  | Sent _ call _ => snd (fst (run call []))
  | Returned | Rejected _ => []
  end.

(** A whole send whose call settles with [settled] before any other event:
    the final state, or [None] when no request went out. *)
Definition complete (b : Begun) (settled : result GenerateContentResponse)
    (now : N) : option AppState :=
  match b with
  | Sent st' call k => Some (settle k (fst (fst (run call [settled]))) now st')
  | Returned | Rejected _ => None
  end.

End Observe.

Module Scenario.
Import GeminiService App.
Local Open Scope N_scope.

(** The user types "hello" and clicks the submit button at time 1000. *)
Definition first_send : Begun :=
  enter ClickSubmit 1000 (setInput (lit "hello") initial).

(** The request is out and unanswered; the user types "again". *)
Definition in_flight : AppState :=
  setInput (lit "again") (Observe.state_after initial first_send).

Definition file_a : File :=
  {| name := lit "a.png"; file_type := lit "image/png";
     dataURL := Ok (lit "data:image/png;base64,QUJD") |}.

Definition file_b : File :=
  {| name := lit "b.txt"; file_type := lit "text/plain";
     dataURL := Ok (lit "data:text/plain;base64,REVG") |}.

Definition field (i : jsstring) (t : FieldType) : UIField :=
  {| id := i; type := t; label := i; placeholder := None; options := None;
     description := None; required := Some true |}.

Definition reply (t : jsstring) : GenerateContentResponse :=
  {| text := Some t; groundingChunks := None; urlMetadata := None |}.

(** A form of three descriptors, the first of which has been filled in. *)
Definition three_fields : list UIField :=
  [field (lit "destination") TEXT; field (lit "dates") DATE; field (lit "budget") NUMBER].

Definition one_filled : list GenerativeForm.FormEvent :=
  [GenerativeForm.OnField (field (lit "destination") TEXT) (GenerativeForm.Typed (lit "Rome"))].

(** A form of two file descriptors; the user gives the second its file
    first, and attaches one more file in the notes section. *)
Definition two_file_fields : list UIField :=
  [field (lit "spec") FILE; field (lit "log") FILE].

Definition file_c : File :=
  {| name := lit "c.pdf"; file_type := lit "application/pdf";
     dataURL := Ok (lit "data:application/pdf;base64,R0hJ") |}.

Definition second_field_first : list GenerativeForm.FormEvent :=
  [GenerativeForm.OnField (field (lit "log") FILE) (GenerativeForm.FileChosen file_b);
   GenerativeForm.OnField (field (lit "spec") FILE) (GenerativeForm.FileChosen file_a);
   GenerativeForm.Drop [file_c]].

Definition citation (u : jsstring) : GroundingChunk :=
  {| web := Some {| uri := Some u; title := None |} |}.

(** A reply without links of its own, with the search citations a and b
    and the URL-fetch result c in its metadata. *)
Definition grounded : GenerateContentResponse :=
  {| text := Some (qlit "{'status':'COMPLETE','message':'done'}");
     groundingChunks := Some [citation (lit "a"); citation (lit "b")];
     urlMetadata := Some [{| retrievedUrl := Some (lit "c"); retrieved_url := None |}] |}.

End Scenario.

Module Spec.
Import GeminiService GenerativeForm.
Local Open Scope N_scope.

(** *** The URL pattern in the specification's words:
    a scheme, then [://], then something that is no white space. *)

Definition isAlpha (c : N) : bool :=
  ((65 <=? c) && (c <=? 90)) || ((97 <=? c) && (c <=? 122)).

(** A URI scheme: a letter, then letters, digits, plus, minus or period. *)
Definition is_scheme (s : jsstring) : bool :=
  match s with
  | c :: r => isAlpha c
              && forallb (fun x => isAlpha x || Obj.isDigit x
                                   || (x =? 43) || (x =? 45) || (x =? 46)) r
  | [] => false
  end.

Definition contains_scheme_url (t : jsstring) : Prop :=
  exists pre scheme c rest,
    t = pre ++ scheme ++ lit "://" ++ c :: rest
    /\ is_scheme scheme = true /\ isWhiteSpace c = false.

(** The pattern restricted to the schemes http and https. *)
Definition contains_http_url (t : jsstring) : Prop :=
  exists pre s c rest,
    t = pre ++ lit "http" ++ s ++ lit "://" ++ c :: rest
    /\ (s = [] \/ s = lit "s") /\ isWhiteSpace c = false.

(** *** The files of a submission in the specification's words *)

Definition on_id (i : jsstring) (ev : FormEvent) : option FieldEvent :=
  match ev with
  | OnField f e => if str_eqb (id f) i then Some e else None
  | _ => None
  end.

(** The file bound to descriptor [i] after the events: the one chosen
    last, unless it was removed since. *)
Definition bound_file (i : jsstring) (evs : list FormEvent) : option File :=
  fold_left (fun cur ev => match on_id i ev with
                           | Some (FileChosen f) => Some f
                           | Some FileRemoved => None
                           | Some (Typed _) | None => cur
                           end) evs None.

Definition files_of (ids : list jsstring) (evs : list FormEvent) : list File :=
  flat_map (fun i => match bound_file i evs with Some f => [f] | None => [] end) ids.

(** The files bound to the descriptors, in descriptor order. *)
Definition files_in_descriptor_order (fields : list UIField) (evs : list FormEvent)
  : list File :=
  files_of (map id fields) evs.

Fixpoint mem (i : jsstring) (l : list jsstring) : bool :=
  match l with
  | [] => false
  | j :: r => str_eqb i j || mem i r
  end.

(** The descriptor ids in the order in which they first received a file. *)
Definition binding_order (evs : list FormEvent) : list jsstring :=
  fold_left (fun acc ev => match ev with
                           | OnField f (FileChosen _) =>
                               if mem (id f) acc then acc else acc ++ [id f]
                           | _ => acc
                           end) evs [].

Definition is_removal (ev : FormEvent) : bool :=
  match ev with OnField _ FileRemoved => true | _ => false end.

Definition on_array_index (ev : FormEvent) : bool :=
  match ev with OnField f _ => Obj.is_index (id f) | _ => false end.

(** *** The completion percentage in the specification's words *)

Fixpoint distinct (l : list jsstring) : list jsstring :=
  match l with
  | [] => []
  | i :: r => if mem i r then distinct r else i :: distinct r
  end.

(** The descriptor ids that have a non-empty current value. *)
Definition filled_ids (fields : list UIField) (st : FormState) : list jsstring :=
  filter (fun i => truthy_field (Obj.get i (formData st))) (distinct (map id fields)).

(** round((count / total) * 100), in the arithmetic of Numbers. *)
Definition percentage (count total : nat) : float :=
  Num.Math_round
    (PrimFloat.mul (PrimFloat.div (Num.of_nat count) (Num.of_nat total))
                   (Num.of_nat 100)).

(** [p] is an integer from 0 to 100 at distance at most 1/2 from the exact
    share [100 * count / total]. *)
Definition is_nearest_percent (count total : nat) (p : float) : bool :=
  existsb (fun z => PrimFloat.eqb p (PrimFloat.of_uint63 (Uint63.of_Z z))
                    && (Z.abs (2 * Z.of_nat total * z - 200 * Z.of_nat count)
                        <=? Z.of_nat total)%Z)
          (map Z.of_nat (seq 0 101)).

(** Every field event of the form comes from one of its descriptors. *)
Definition from_fields (fields : list UIField) (evs : list FormEvent) : Prop :=
  forall f e, In (OnField f e) evs -> In f fields.

End Spec.

(* ===================================================================== *)
(** ** The rest of the [App] component: staging, typing, the event loop *)
(* ===================================================================== *)

Module Shell.
Import GeminiService App.

(** [list.filter((_, i) => keep(i))]: the callback sees each element's
    index, counted from [i]. *)
Fixpoint filter_index {A : Type} (keep : nat -> bool) (i : nat) (l : list A) : list A :=
  match l with
  | [] => []
  | x :: r => if keep i then x :: filter_index keep (S i) r
              else filter_index keep (S i) r
  end.

(** [removeStagedFile] as the source writes it:
    [prev.filter((_, i) => i !== index)]. *)
Definition removeStagedFile_filter (index : nat) (st : AppState) : AppState :=
  setStagedFiles (filter_index (fun i => negb (Nat.eqb i index)) 0) st.

(** [handleGlobalDrop], given the files of the drop (the dragging flag it
    also clears is presentation only). *)
Definition handleGlobalDrop (files : list File) (st : AppState) : AppState :=
  if (0 <? length files)%nat
  then setStagedFiles (fun prev => prev ++ files) st
  else st.

(** [onChange] of the hidden file input, given the files picked. *)
Definition fileInput_onChange (files : list File) (st : AppState) : AppState :=
  if (0 <? length files)%nat
  then setStagedFiles (fun prev => prev ++ files) st
  else st.

(** The "Discard Batch" button. *)
Definition discardBatch (st : AppState) : AppState :=
  setStagedFiles (fun _ => []) st.

Definition handleDictationResult (text : jsstring) (st : AppState) : AppState :=
  setInput (if nonempty (trim (input st)) then input st ++ lit " " ++ text else text) st.

(** What can happen to the application: a handler runs, or the call of a
    send that is waiting settles. *)
Inductive Event : Type :=
| Enter (ep : EntryPoint) (now : N)
| Settle (k : Pending) (settled : result GenerateContentResponse) (now : N)
| Reset
| GlobalDrop (files : list File)
| FileInput (files : list File)
| RemoveStaged (index : nat)
| DiscardBatch
| Typing (v : jsstring)
| DictationResult (text : jsstring).

Definition step (st : AppState) (ev : Event) : AppState :=
  match ev with
  | Enter ep now => Observe.state_after st (enter ep now st)
  | Settle k settled now => settle k (receive settled) now st
  | Reset => resetChat st
  | GlobalDrop files => handleGlobalDrop files st
  | FileInput files => fileInput_onChange files st
  | RemoveStaged index => removeStagedFile index st
  | DiscardBatch => discardBatch st
  | Typing v => setInput v st
  | DictationResult text => handleDictationResult text st
  end.

(** The state after a sequence of events, from the first render. *)
Definition reach (evs : list Event) : AppState := fold_left step evs initial.

(** A history made of pairs: a user turn, then a model turn. *)
Fixpoint paired (h : list Content) : bool :=
  match h with
  | [] => true
  | u :: rest =>
      match rest with
      | m :: h' => str_eqb (content_role u) (lit "user")
                   && str_eqb (content_role m) (lit "model")
                   && paired h'
      | [] => false
      end
  end.

(** A text without a comma. *)
Definition no_comma (s : jsstring) : bool := forallb (fun c => negb (N.eqb c 44)) s.

(** The model and the reasoning tier each entry point asks for, and the
    loading text it shows. *)
Definition model_of (ep : EntryPoint) : jsstring :=
  match ep with
  | FormSubmit _ _ true => pro
  | _ => flash
  end.

Definition tier_of (ep : EntryPoint) : jsstring :=
  match ep with
  | FormSubmit _ _ true => lit "HIGH"
  | _ => lit "MEDIUM"
  end.

Definition loading_text_of (ep : EntryPoint) (st : AppState) : jsstring :=
  match ep with
  | FormSubmit _ _ _ => lit "Thinking and Analyzing..."
  | _ => if (length (messages st) <=? 1)%nat then lit "Generating visual interface..."
         else lit "Let me think about it..."
  end.

End Shell.

Module Traces.
Import GenerativeForm.

(** What a field event writes into [formData]. *)
Definition written (ev : FieldEvent) : FieldValue :=
  match ev with
  | Typed v => FStr v
  | FileChosen f => FStr (name f)
  | FileRemoved => FNull
  end.

(** The value the last event on descriptor [i] wrote, if there was one. *)
Definition last_entry (i : jsstring) (evs : list FormEvent) : option FieldValue :=
  fold_left (fun cur ev => match Spec.on_id i ev with
                           | Some e => Some (written e)
                           | None => cur
                           end) evs None.

(** The files of the drops and selections, in the order they came. *)
Definition attached (evs : list FormEvent) : list File :=
  flat_map (fun ev => match ev with
                      | Drop fs | ManualFileSelect fs => fs
                      | _ => []
                      end) evs.

Definition is_extra_removal (ev : FormEvent) : bool :=
  match ev with RemoveAdditionalFile _ => true | _ => false end.

End Traces.

(* ===================================================================== *)
(** ** Replies that differ in their status, and more cases *)
(* ===================================================================== *)

Module Status.

(** Two reply objects that agree on every property but [status], which
    is [s] in the second. *)
Definition differ_in_status (s : value) (a b : Obj.object value) : Prop :=
  Obj.get (lit "status") b = Some s
  /\ forall k, k <> lit "status" -> Obj.get k b = Obj.get k a.

(** Two outcomes of the adapter that are the same but for the status of
    the reply: the same error, or reply objects that differ in nothing
    else. *)
Definition same_but_status (s : value) (ra rb : result value) : Prop :=
  match ra, rb with
  | Ok (VObj a), Ok (VObj b) => differ_in_status s a b
  | Throw e, Throw e' => e = e'
  | _, _ => False
  end.

End Status.

Module Cases.
Import GeminiService App.

(** The form of three descriptors with two of them filled in. *)
Definition two_filled : list GenerativeForm.FormEvent :=
  [GenerativeForm.OnField (Scenario.field (lit "destination") TEXT)
     (GenerativeForm.Typed (lit "Rome"));
   GenerativeForm.OnField (Scenario.field (lit "budget") NUMBER)
     (GenerativeForm.Typed (lit "900"))].

(** The application after a first exchange whose reply asked for the
    three descriptors: the generated form is on screen. *)
Definition form_open : AppState :=
  settle {| sent_text := lit "Plan a trip"; processedFiles := [] |}
    (Ok (VObj [(lit "status", VStr (lit "COLLECTING"));
               (lit "message", VStr (lit "Tell me more"));
               (lit "fields", VArr [VObj [(lit "id", VStr (lit "destination"))];
                                    VObj [(lit "id", VStr (lit "dates"))];
                                    VObj [(lit "id", VStr (lit "budget"))]] [])]))
    1500 initial.

(** A reply with an unknown status, and the same reply with a known one. *)
Definition pending_text : jsstring := qlit "{'status':'PENDING','message':'hi'}".
Definition complete_text : jsstring := qlit "{'status':'COMPLETE','message':'hi'}".

(** Two descriptors, the id of the second being the end of the id of the
    first: as mere text, a line of the second could be read off the end of a
    line of the first. *)
Definition overlapping : list GenerativeForm.FormEvent :=
  [GenerativeForm.OnField (Scenario.field (lit "data") TEXT) (GenerativeForm.Typed (lit "10"));
   GenerativeForm.OnField (Scenario.field (lit "a") TEXT) (GenerativeForm.Typed (lit "7"))].

End Cases.

(* ===================================================================== *)
(** ** Strings: basic facts *)
(* ===================================================================== *)

Lemma str_eqb_refl : forall s, str_eqb s s = true.
Proof.
  induction s as [|c s IH]; simpl; [reflexivity|].
  now rewrite N.eqb_refl, IH.
Qed.

Lemma str_eqb_eq : forall a b, str_eqb a b = true <-> a = b.
Proof.
  induction a as [|x a IH]; destruct b as [|y b]; simpl; split; intro H;
    try reflexivity; try discriminate.
  - apply andb_true_iff in H. destruct H as [Hxy Hab].
    apply N.eqb_eq in Hxy. apply IH in Hab. now subst.
  - injection H as -> ->. now rewrite N.eqb_refl, str_eqb_refl.
Qed.

Lemma str_eqb_neq : forall a b, str_eqb a b = false <-> a <> b.
Proof.
  intros a b. split.
  - intros H E. apply str_eqb_eq in E. congruence.
  - intros H. destruct (str_eqb a b) eqn:E; [|reflexivity].
    apply str_eqb_eq in E. contradiction.
Qed.

Lemma str_eqb_sym : forall a b, str_eqb a b = str_eqb b a.
Proof.
  intros a b. destruct (str_eqb a b) eqn:E.
  - apply str_eqb_eq in E. subst. now rewrite str_eqb_refl.
  - symmetry. apply str_eqb_neq. apply str_eqb_neq in E. congruence.
Qed.

Lemma trimStart_snoc_nonempty :
  forall l c, isWhiteSpace c = false -> trimStart (l ++ [c]) <> [].
Proof.
  induction l as [|x l IH]; intros c Hc; simpl.
  - now rewrite Hc.
  - destruct (isWhiteSpace x); [now apply IH | discriminate].
Qed.

(** A text whose first unit is no white space has a non-empty [trim]. *)
Lemma trim_nonempty_head :
  forall c r, isWhiteSpace c = false -> nonempty (trim (c :: r)) = true.
Proof.
  intros c r Hc. unfold trim, trimEnd. simpl trimStart at 2. rewrite Hc.
  simpl rev at 2.
  pose proof (trimStart_snoc_nonempty (rev r) c Hc) as Hne.
  destruct (trimStart (rev r ++ [c])) as [|y l] eqn:E; [congruence|].
  simpl. destruct (rev l ++ [y]) eqn:E2; [|reflexivity].
  now destruct (rev l).
Qed.

Lemma startsWith_app : forall p r, startsWith p (p ++ r) = true.
Proof.
  induction p as [|x p IH]; intro r; simpl; [reflexivity|].
  now rewrite N.eqb_refl, IH.
Qed.

Lemma startsWith_inv :
  forall p s, startsWith p s = true -> s = p ++ skipn (length p) s.
Proof.
  induction p as [|x p IH]; intros s H; simpl in *; [reflexivity|].
  destruct s as [|y s]; [discriminate|].
  apply andb_true_iff in H. destruct H as [Hxy Hp].
  apply N.eqb_eq in Hxy. subst y. simpl. f_equal. now apply IH.
Qed.

Lemma skipn_prefix : forall (p r : jsstring), skipn (length p) (p ++ r) = r.
Proof. induction p as [|x p IH]; intro r; simpl; auto. Qed.

(* ===================================================================== *)
(** ** Objects: reading after writing *)
(* ===================================================================== *)

Section ObjectFacts.
Variable A : Type.
Implicit Types (o : Obj.object A) (k : jsstring) (v : A).

Lemma get_set_same : forall k v o, Obj.get k (Obj.set k v o) = Some v.
Proof.
  intros k v o. induction o as [|[k' v'] o IH]; simpl.
  - now rewrite str_eqb_refl.
  - destruct (str_eqb k k') eqn:E; simpl; rewrite E; auto.
Qed.

Lemma get_set_other :
  forall k k' v o, k <> k' -> Obj.get k' (Obj.set k v o) = Obj.get k' o.
Proof.
  intros k k' v o Hne. induction o as [|[j w] o IH]; simpl.
  - assert (E : str_eqb k' k = false) by (apply str_eqb_neq; congruence).
    now rewrite E.
  - destruct (str_eqb k j) eqn:E; simpl.
    + apply str_eqb_eq in E. subst j.
      assert (E' : str_eqb k' k = false) by (apply str_eqb_neq; congruence).
      now rewrite E'.
    + destruct (str_eqb k' j); auto.
Qed.

Lemma set_set : forall k v1 v2 o, Obj.set k v2 (Obj.set k v1 o) = Obj.set k v2 o.
Proof.
  intros k v1 v2 o. induction o as [|[j w] o IH]; simpl.
  - now rewrite str_eqb_refl.
  - destruct (str_eqb k j) eqn:E; simpl; rewrite E; [reflexivity|now rewrite IH].
Qed.

Lemma keys_set :
  forall k v o, map fst (Obj.set k v o)
                = if Obj.has k o then map fst o else map fst o ++ [k].
Proof.
  intros k v o. unfold Obj.has. induction o as [|[j w] o IH]; simpl; [reflexivity|].
  destruct (str_eqb k j) eqn:E; simpl; [reflexivity|].
  rewrite IH. now destruct (Obj.get k o).
Qed.

Lemma get_None_not_in : forall k o, Obj.get k o = None <-> ~ In k (map fst o).
Proof.
  intros k o. induction o as [|[j w] o IH]; simpl.
  - tauto.
  - destruct (str_eqb k j) eqn:E.
    + apply str_eqb_eq in E. subst j. split; [discriminate|]. intros H. exfalso. auto.
    + apply str_eqb_neq in E. rewrite IH. split.
      * intros H [H1|H1]; [congruence|auto].
      * intros H H1. apply H. now right.
Qed.

End ObjectFacts.

(* ===================================================================== *)
(** ** The send pipeline ([App.handleSend]) *)
(* ===================================================================== *)

Section SendPipeline.
Import GeminiService App Observe.

(** [sendMessageToGemini] makes one call, and ends with what [receive]
    makes of its result. *)
Lemma run_sendMessageToGemini :
  forall history newInput modelName script,
    run (sendMessageToGemini history newInput modelName) script =
    (receive (match script with s :: _ => s | [] => Throw ApiError end),
     [request history newInput modelName],
     match script with _ :: rest => rest | [] => [] end).
Proof. intros. now destruct script. Qed.

(** What a call of [handleSend] that is not stopped leaves behind. *)
Lemma handleSend_sent :
  forall text files modelName loadingOverride now st st' call k,
    handleSend text files modelName loadingOverride now st = Sent st' call k ->
    exists processed : list Attachment,
      k = {| sent_text := text; processedFiles := processed |}
      /\ call = sendMessageToGemini (aiHistory st)
                  {| input_text := Some text; input_files := Some processed |} modelName
      /\ messages st' = messages st
                        ++ [newUserMsg now text (files ++ stagedFiles st) processed]
      /\ aiHistory st' = aiHistory st
      /\ isLoading st' = true
      /\ input st' = []
      /\ stagedFiles st' = [].
Proof.
  intros text files modelName loadingOverride now st st' call k H.
  unfold handleSend in H.
  destruct (negb (nonempty (trim text)) && (length (files ++ stagedFiles st) =? 0)%nat);
    [discriminate|].
  destruct (Promise_all _) as [processed|e]; [|discriminate].
  injection H as <- <- <-. exists processed. repeat split; reflexivity.
Qed.

(** C10. A send whose trimmed text is empty and which carries no file,
    passed or staged, does nothing: [handleSend] returns at its guard, no
    request goes to the model, and the message log, the conversation
    history, the staged files and the loading flag are what they were. *)
Theorem handleSend_nothing_to_send :
  forall text files modelName loadingOverride now st,
    trim text = [] -> files = [] -> stagedFiles st = [] ->
    let b := handleSend text files modelName loadingOverride now st in
    b = Returned
    /\ issued b = []
    /\ state_after st b = st
    /\ messages (state_after st b) = messages st
    /\ aiHistory (state_after st b) = aiHistory st
    /\ stagedFiles (state_after st b) = stagedFiles st
    /\ isLoading (state_after st b) = isLoading st.
Proof.
  intros text files modelName loadingOverride now st Htext Hfiles Hstaged b.
  assert (Hb : b = Returned).
  { unfold b, handleSend. now rewrite Htext, Hfiles, Hstaged. }
  rewrite Hb. repeat split; reflexivity.
Qed.

Lemma handleSend_nothing_to_send_witness :
  let st := setInput (lit "   ") initial in
  let b := handleSend (lit "   ") [] flash None 1000 st in
  b = Returned
  /\ issued b = []
  /\ state_after st b = st
  /\ messages (state_after st b) = messages st
  /\ aiHistory (state_after st b) = aiHistory st
  /\ stagedFiles (state_after st b) = stagedFiles st
  /\ isLoading (state_after st b) = isLoading st.
Proof.
  apply (@handleSend_nothing_to_send (lit "   ") [] flash None 1000%N
           (setInput (lit "   ") initial)); reflexivity.
Defined.

(** *** What [cleanJsonOutput] strips *)

Example cleanJsonOutput_json_fence :
  cleanJsonOutput (lit " ```json" ++ [10%N] ++ qlit "{'status':'COMPLETE'}" ++ [10%N]
                   ++ lit "``` ")
  = qlit "{'status':'COMPLETE'}".
Proof. reflexivity. Qed.

Example cleanJsonOutput_bare_fence :
  cleanJsonOutput (lit "```" ++ qlit "{'status':'COMPLETE'}" ++ lit "```")
  = qlit "{'status':'COMPLETE'}".
Proof. reflexivity. Qed.

(** The closing fence goes only together with an opening one. *)
Example cleanJsonOutput_closing_fence_only :
  cleanJsonOutput (lit "{}```") = lit "{}```".
Proof. reflexivity. Qed.

(** *** What [receive] makes of a settled call *)

Lemma receive_rejected :
  forall e, receive (Throw e) = Throw e.
Proof. reflexivity. Qed.

Lemma receive_unparseable :
  forall response t,
    text response = Some t -> nonempty t = true ->
    JSON.parse (cleanJsonOutput t) = None ->
    receive (Ok response) = Throw SchemaMismatch.
Proof.
  intros response t Ht Hne Hparse. unfold receive. simpl.
  now rewrite Ht, Hne, Hparse.
Qed.

(** A text that does not parse never gives a reply. *)
Lemma receive_unparseable_throws :
  forall response t,
    text response = Some t -> JSON.parse (cleanJsonOutput t) = None ->
    is_ok (receive (Ok response)) = false.
Proof.
  intros response t Ht Hparse. unfold receive. simpl. rewrite Ht.
  destruct (nonempty t); simpl; [now rewrite Hparse | reflexivity].
Qed.

Lemma default_links_object :
  forall o, truthy (prop grounding_links (VObj o)) = false ->
    default_links (VObj o) = Ok (VObj (Obj.set grounding_links (VArr [] []) o)).
Proof. intros o H. unfold default_links. now rewrite H. Qed.

Lemma push_links_object :
  forall links o es,
    push_links links (VObj (Obj.set grounding_links (VArr es []) o))
    = Ok (VObj (Obj.set grounding_links (VArr (es ++ links) [])
                  (Obj.set grounding_links (VArr es []) o))).
Proof.
  intros links o es. unfold push_links. simpl prop. now rewrite get_set_same.
Qed.

(** A reply object without a truthy [grounding_links] comes back with that
    property set to the links of the metadata, and is otherwise untouched. *)
Lemma receive_object :
  forall response t o,
    text response = Some t -> nonempty t = true ->
    JSON.parse (cleanJsonOutput t) = Some (VObj o) ->
    truthy (prop grounding_links (VObj o)) = false ->
    receive (Ok response)
    = Ok (VObj (Obj.set grounding_links (VArr (metadata_links response) []) o)).
Proof.
  intros response t o Ht Hne Hparse Hfalsy. unfold receive, bind.
  rewrite Ht, Hne, Hparse. cbn [negb].
  rewrite (default_links_object o Hfalsy).
  unfold metadata_links.
  destruct (groundingChunks response) as [chunks|];
    destruct (urlMetadata response) as [metas|];
    repeat (rewrite push_links_object; rewrite ?set_set);
    rewrite ?app_nil_r; reflexivity.
Qed.

Lemma prop_set_other :
  forall k k' v o, k <> k' ->
    prop k' (VObj (Obj.set k v o)) = prop k' (VObj o).
Proof. intros. simpl. now rewrite get_set_other. Qed.

Lemma prop_set_same :
  forall k v o, prop k (VObj (Obj.set k v o)) = v.
Proof. intros. simpl. now rewrite get_set_same. Qed.

(** *** The state [settle] leaves *)

Lemma settle_ok :
  forall k now st aiResponse,
    let final := settle k (Ok aiResponse) now st in
    messages final = messages st ++ [newAiMsg now aiResponse]
    /\ aiHistory final = aiHistory st ++ [userTurn k; modelTurn aiResponse]
    /\ isLoading final = false
    /\ stagedFiles final = stagedFiles st
    /\ input final = input st.
Proof. intros. repeat split; reflexivity. Qed.

Lemma settle_throw :
  forall k now st e,
    let final := settle k (Throw e) now st in
    messages final = messages st ++ [fallback now]
    /\ aiHistory final = aiHistory st
    /\ isLoading final = false.
Proof. intros. repeat split; reflexivity. Qed.

(** C2. A send that reaches the model and gets a reply adds exactly two
    entries to the conversation history, the user turn and then the model
    turn; a send whose call fails (the request is rejected, or the text that
    comes back does not parse) adds none. One request goes out either way. *)
Theorem history_grows_in_pairs :
  forall text files modelName loadingOverride now st st' call k settled now',
    handleSend text files modelName loadingOverride now st = Sent st' call k ->
    let outcome := fst (fst (run call [settled])) in
    let final := settle k outcome now' st' in
    length (issued (Sent st' call k)) = 1%nat
    /\ match outcome with
       | Ok aiResponse =>
           aiHistory final = aiHistory st ++ [userTurn k; modelTurn aiResponse]
           /\ length (aiHistory final) = (length (aiHistory st) + 2)%nat
           /\ content_role (userTurn k) = lit "user"
           /\ content_role (modelTurn aiResponse) = lit "model"
       | Throw _ =>
           aiHistory final = aiHistory st
       end
    /\ (forall e, settled = Throw e -> aiHistory final = aiHistory st)
    /\ (forall response t,
          settled = Ok response -> GeminiService.text response = Some t ->
          JSON.parse (cleanJsonOutput t) = None ->
          aiHistory final = aiHistory st).
Proof.
  intros text files modelName loadingOverride now st st' call k settled now' H
         outcome final.
  destruct (handleSend_sent _ _ _ _ _ _ H)
    as (processed & Hk & Hcall & _ & Hhist & _).
  assert (Hout : outcome = receive settled).
  { unfold outcome. rewrite Hcall, run_sendMessageToGemini. reflexivity. }
  assert (Hcase : match outcome with
                  | Ok aiResponse =>
                      aiHistory final = aiHistory st ++ [userTurn k; modelTurn aiResponse]
                  | Throw _ => aiHistory final = aiHistory st
                  end).
  { unfold final. destruct outcome as [r|e]; simpl; now rewrite Hhist. }
  split; [|split; [|split]].
  - simpl. rewrite Hcall. reflexivity.
  - destruct outcome as [r|e]; [|exact Hcase].
    rewrite Hcase. rewrite length_app. simpl. repeat split; reflexivity.
  - intros e ->. rewrite Hout, receive_rejected in Hcase. exact Hcase.
  - intros response t -> Ht Hparse.
    pose proof (receive_unparseable_throws response Ht Hparse) as Hthrow.
    rewrite <- Hout in Hthrow. destruct outcome; [discriminate|exact Hcase].
Qed.

Lemma history_grows_in_pairs_witness :
  let settled := Ok (Scenario.reply (qlit "{'status':'COMPLETE','message':'done'}")) in
  exists st' call k,
    handleSend (lit "hello") [] flash None 1000%N initial = Sent st' call k
    /\ length (aiHistory (settle k (fst (fst (run call [settled]))) 2000%N st')) = 2%nat
    /\ aiHistory (settle k (fst (fst (run call [Throw ApiError]))) 2000%N st') = [].
Proof.
  eexists. eexists. eexists. split; [reflexivity|].
  pose proof (@history_grows_in_pairs (lit "hello") [] flash None 1000%N initial
                _ _ _ (Ok (Scenario.reply (qlit "{'status':'COMPLETE','message':'done'}")))
                2000%N eq_refl) as [_ [Hok _]].
  pose proof (@history_grows_in_pairs (lit "hello") [] flash None 1000%N initial
                _ _ _ (Throw ApiError) 2000%N eq_refl) as [_ [_ [Hthrow _]]].
  split.
  - vm_compute in Hok. destruct Hok as [_ [Hlen _]]. vm_compute. exact Hlen.
  - exact (Hthrow ApiError eq_refl).
Defined.

(** C3. The assistant message made from a reply carries, when the status is
    "COLLECTING" and the reply has N field descriptors, exactly those N
    descriptors and neither analysis nor final output; when the status is
    "COMPLETE", the reply's analysis and final output (each as far as it is
    present) and no field descriptors. *)
Theorem status_decides_the_payload :
  forall k now st aiResponse,
    let m := newAiMsg now aiResponse in
    messages (settle k (Ok aiResponse) now st) = messages st ++ [m]
    /\ (forall ds,
          prop (lit "status") aiResponse = VStr (lit "COLLECTING") ->
          prop (lit "fields") aiResponse = VArr ds [] ->
          uiFields m = VArr ds []
          /\ analysis m = VUndefined /\ final_output m = VUndefined)
    /\ (prop (lit "status") aiResponse = VStr (lit "COMPLETE") ->
          analysis m = prop (lit "analysis") aiResponse
          /\ final_output m = prop (lit "final_output") aiResponse
          /\ uiFields m = VUndefined).
Proof.
  intros k now st aiResponse m. split; [reflexivity|]. split.
  - intros ds Hstatus Hfields. unfold m, newAiMsg. simpl.
    rewrite Hstatus, Hfields. repeat split; reflexivity.
  - intros Hstatus. unfold m, newAiMsg. simpl.
    rewrite Hstatus. repeat split; reflexivity.
Qed.

Lemma status_decides_the_payload_witness :
  let collecting :=
    VObj [(lit "status", VStr (lit "COLLECTING")); (lit "message", VStr (lit "more"));
          (lit "fields", VArr [VObj [(lit "id", VStr (lit "when"))];
                               VObj [(lit "id", VStr (lit "where"))]] []);
          (lit "analysis", VStr (lit "stray"))] in
  let complete :=
    VObj [(lit "status", VStr (lit "COMPLETE")); (lit "message", VStr (lit "done"));
          (lit "fields", VArr [VObj [(lit "id", VStr (lit "stray"))]] []);
          (lit "final_output", VStr (lit "the plan"))] in
  (uiFields (newAiMsg 7 collecting)
   = VArr [VObj [(lit "id", VStr (lit "when"))]; VObj [(lit "id", VStr (lit "where"))]] []
   /\ analysis (newAiMsg 7 collecting) = VUndefined
   /\ final_output (newAiMsg 7 collecting) = VUndefined)
  /\ (analysis (newAiMsg 7 complete) = VUndefined
      /\ final_output (newAiMsg 7 complete) = VStr (lit "the plan")
      /\ uiFields (newAiMsg 7 complete) = VUndefined).
Proof.
  intros collecting complete. split.
  - destruct (@status_decides_the_payload
                {| sent_text := []; processedFiles := [] |} 7%N initial collecting)
      as [_ [H _]].
    apply H; reflexivity.
  - destruct (@status_decides_the_payload
                {| sent_text := []; processedFiles := [] |} 7%N initial complete)
      as [_ [_ H]].
    apply H; reflexivity.
Defined.

(** The submit button does keep a second send out while one is in flight. *)
Lemma click_submit_while_loading :
  forall now st, isLoading st = true -> enter ClickSubmit now st = Returned.
Proof.
  intros now st H. unfold enter, submit_disabled. rewrite H.
  now rewrite orb_true_r.
Qed.

(** The Enter key does not: [handleSend] never reads [isLoading]. *)
Lemma enter_key_ignores_isLoading :
  forall now st,
    nonempty (trim (input st)) = true -> stagedFiles st = [] ->
    exists st',
      enter (KeyDown (lit "Enter") false) now st
      = Sent st'
          (sendMessageToGemini (aiHistory st)
             {| input_text := Some (input st); input_files := Some [] |} flash)
          {| sent_text := input st; processedFiles := [] |}
      /\ messages st' = messages st ++ [newUserMsg now (input st) [] []].
Proof.
  intros now st Hne Hstaged. eexists. unfold enter. simpl.
  unfold handleSend. rewrite Hne, Hstaged. simpl. split; reflexivity.
Qed.

(** C1. The claim fails on the code. With the request of a first send
    ("hello", by the submit button) still unanswered and [isLoading] true,
    the submit button is disabled, but an unshifted Enter in the text area
    runs [handleSend] all the same: a second request goes out, built on the
    history as it was before the first one, a second user message joins the
    log, and the input is cleared. *)
Theorem enter_key_sends_while_loading :
  isLoading Scenario.in_flight = true
  /\ length (issued Scenario.first_send) = 1%nat
  /\ enter ClickSubmit 2000 Scenario.in_flight = Returned
  /\ let second := enter (KeyDown (lit "Enter") false) 2000 Scenario.in_flight in
     issued second
     = [request [] {| input_text := Some (lit "again"); input_files := Some [] |} flash]
     /\ messages (state_after Scenario.in_flight second)
        = messages Scenario.in_flight ++ [newUserMsg 2000 (lit "again") [] []]
     /\ input (state_after Scenario.in_flight second) = []
     /\ state_after Scenario.in_flight second <> Scenario.in_flight.
Proof.
  split; [reflexivity|]. split; [reflexivity|]. split; [reflexivity|].
  split; [reflexivity|]. split; [reflexivity|]. split; [reflexivity|].
  intros H. apply (f_equal input) in H. discriminate H.
Qed.

(** *** Replies the schema does not allow *)

Lemma assign_throws : forall k v target e, assign k v target = Throw e -> e = TypeError.
Proof. intros k v target e H. destruct target; simpl in H; congruence. Qed.

Lemma default_links_throws : forall v e, default_links v = Throw e -> e = TypeError.
Proof.
  intros v e H. unfold default_links in H.
  destruct v; try congruence;
    destruct (truthy _); try congruence; now apply assign_throws in H.
Qed.

Lemma push_links_throws : forall links v e, push_links links v = Throw e -> e = TypeError.
Proof.
  intros links v e H. unfold push_links in H.
  destruct (prop grounding_links v); try congruence. now apply assign_throws in H.
Qed.

(** Once the text has parsed, nothing [receive] does can end in the schema
    error: no key and no value of the reply is looked at for validity. *)
Lemma receive_parsed :
  forall response t v,
    text response = Some t -> nonempty t = true ->
    JSON.parse (cleanJsonOutput t) = Some v ->
    receive (Ok response) <> Throw SchemaMismatch.
Proof.
  intros response t v Ht Hne Hparse. unfold receive, bind.
  rewrite Ht, Hne, Hparse. cbn [negb].
  destruct (default_links v) as [v1|e1] eqn:E1;
    [|apply default_links_throws in E1; subst; discriminate].
  destruct (groundingChunks response) as [chunks|].
  - destruct (push_links (search_links chunks) v1) as [v2|e2] eqn:E2;
      [|apply push_links_throws in E2; subst; discriminate].
    destruct (urlMetadata response) as [metas|]; [|discriminate].
    destruct (push_links (url_links metas) v2) as [v3|e3] eqn:E3;
      [discriminate|apply push_links_throws in E3; subst; discriminate].
  - destruct (urlMetadata response) as [metas|]; [|discriminate].
    destruct (push_links (url_links metas) v1) as [v3|e3] eqn:E3;
      [discriminate|apply push_links_throws in E3; subst; discriminate].
Qed.

(** C4, as the claim states it, fails where it promises a failure for
    missing keys: the reply [{}] has neither [status] nor [message], and
    [sendMessageToGemini] returns it, with an empty link list added. *)
Lemma missing_keys_are_not_rejected :
  JSON.parse (cleanJsonOutput (lit "{}")) = Some (VObj [])
  /\ prop (lit "status") (VObj []) = VUndefined
  /\ prop (lit "message") (VObj []) = VUndefined
  /\ receive (Ok (Scenario.reply (lit "{}"))) = Ok (VObj [(grounding_links, VArr [] [])])
  /\ receive (Ok (Scenario.reply (lit "{}"))) <> Throw SchemaMismatch.
Proof.
  repeat split; try reflexivity. discriminate.
Qed.

(** C5, as the claim states it, fails: the reply with status "PENDING"
    comes back from [sendMessageToGemini] as a reply, not as an error, and
    the send that was waiting for it ends with an assistant message built
    from it and two more turns in the history. *)
Lemma unknown_status_builds_a_message :
  let response := Scenario.reply (qlit "{'status':'PENDING','message':'hi'}") in
  let r := VObj [(lit "status", VStr (lit "PENDING")); (lit "message", VStr (lit "hi"));
                 (grounding_links, VArr [] [])] in
  receive (Ok response) = Ok r
  /\ strict_eq_str (prop (lit "status") r) (lit "COLLECTING") = false
  /\ strict_eq_str (prop (lit "status") r) (lit "COMPLETE") = false
  /\ exists final,
       complete Scenario.first_send (Ok response) 3000 = Some final
       /\ last (messages final) init_message = newAiMsg 3000 r
       /\ content (newAiMsg 3000 r) = VStr (lit "hi")
       /\ length (aiHistory final) = 2%nat.
Proof.
  repeat split. eexists. repeat split.
Qed.

(** *** Tool selection *)

Lemma after_scheme_spec :
  forall s, after_scheme s = true
            <-> exists c rest, s = lit "://" ++ c :: rest /\ isWhiteSpace c = false.
Proof.
  intros s. unfold after_scheme. split.
  - intros H. apply andb_true_iff in H. destruct H as [Hp Hc].
    apply startsWith_inv in Hp. change (length (lit "://")) with 3%nat in Hp.
    destruct (skipn 3 s) as [|c rest]; [discriminate|].
    exists c, rest. split; [exact Hp|]. now apply negb_true_iff.
  - intros (c & rest & -> & Hc).
    rewrite startsWith_app.
    change 3%nat with (length (lit "://")). rewrite skipn_prefix.
    now rewrite Hc.
Qed.

Lemma url_here_spec :
  forall s, url_here s = true
            <-> exists x c rest,
                  s = lit "http" ++ x ++ lit "://" ++ c :: rest
                  /\ (x = [] \/ x = lit "s") /\ isWhiteSpace c = false.
Proof.
  intros s. unfold url_here. split.
  - intros H. apply andb_true_iff in H. destruct H as [Hp Hrest].
    apply startsWith_inv in Hp. change (length (lit "http")) with 4%nat in Hp.
    destruct (skipn 4 s) as [|c r]; [discriminate|].
    apply orb_true_iff in Hrest. destruct Hrest as [H|H].
    + apply andb_true_iff in H. destruct H as [Hs Ha].
      apply N.eqb_eq in Hs. subst c.
      apply after_scheme_spec in Ha. destruct Ha as (c & rest & -> & Hc).
      exists (lit "s"), c, rest. split; [exact Hp|]. split; [now right|exact Hc].
    + apply after_scheme_spec in H. destruct H as (c' & rest & E & Hc).
      exists [], c', rest. split; [|split; [now left|exact Hc]].
      rewrite Hp, E. reflexivity.
  - intros (x & c & rest & -> & Hx & Hc).
    rewrite startsWith_app.
    change 4%nat with (length (lit "http")). rewrite skipn_prefix.
    assert (Ha : after_scheme (lit "://" ++ c :: rest) = true).
    { apply after_scheme_spec. now exists c, rest. }
    change (lit "://" ++ c :: rest) with (58%N :: 47%N :: 47%N :: c :: rest) in *.
    destruct Hx as [-> | ->].
    + cbn [app]. rewrite Ha. now rewrite orb_true_r.
    + change (lit "s" ++ 58%N :: 47%N :: 47%N :: c :: rest)
        with (115%N :: 58%N :: 47%N :: 47%N :: c :: rest).
      cbv iota. rewrite N.eqb_refl, Ha. reflexivity.
Qed.

Lemma urlRegex_test_spec :
  forall s, urlRegex_test s = true
            <-> exists pre suf, s = pre ++ suf /\ url_here suf = true.
Proof.
  induction s as [|c s IH].
  - simpl. split; [discriminate|].
    intros (pre & suf & E & H). symmetry in E. apply app_eq_nil in E.
    destruct E as [_ ->]. discriminate.
  - cbn [urlRegex_test]. rewrite orb_true_iff, IH. split.
    + intros [H | (pre & suf & -> & H)].
      * now exists [], (c :: s).
      * now exists (c :: pre), suf.
    + intros (pre & suf & E & H). destruct pre as [|c' pre].
      * simpl in E. subst suf. now left.
      * injection E as -> ->. right. now exists pre, suf.
Qed.

Lemma urlRegex_test_http :
  forall t, urlRegex_test t = true <-> Spec.contains_http_url t.
Proof.
  intros t. rewrite urlRegex_test_spec. unfold Spec.contains_http_url. split.
  - intros (pre & suf & -> & H). apply url_here_spec in H.
    destruct H as (x & c & rest & -> & Hx & Hc). now exists pre, x, c, rest.
  - intros (pre & x & c & rest & -> & Hx & Hc).
    exists pre, (lit "http" ++ x ++ lit "://" ++ c :: rest). split; [reflexivity|].
    apply url_here_spec. now exists x, c, rest.
Qed.

(** C8, as the code has it. The one request of [sendMessageToGemini]
    always carries the web-search tool, and carries the URL-fetch tool if and
    only if the input text contains http:// or https:// followed by at least
    one unit that is no white space; it carries no other tool. *)
Theorem url_tool_iff_http_url :
  forall history newInput modelName,
    let req := request history newInput modelName in
    sendMessageToGemini history newInput modelName
    = Await req (fun settled => Done (receive settled))
    /\ In googleSearch (tools req)
    /\ (In urlContext (tools req)
        <-> exists t, input_text newInput = Some t /\ Spec.contains_http_url t)
    /\ (tools req = [googleSearch] \/ tools req = [googleSearch; urlContext]).
Proof.
  intros history newInput modelName req. split; [reflexivity|].
  split; [now left|]. split.
  - unfold req, request, select_tools, hasUrl. simpl tools.
    destruct (input_text newInput) as [t|].
    + destruct (urlRegex_test t) eqn:E.
      * assert (Hne : nonempty t = true).
        { apply urlRegex_test_spec in E. destruct E as (pre & suf & -> & H).
          destruct suf; [discriminate|]. now destruct pre. }
        rewrite Hne. simpl. split.
        -- intros _. exists t. split; [reflexivity|]. now apply urlRegex_test_http.
        -- intros _. right. now left.
      * rewrite andb_false_r. simpl. split.
        -- intros [H|[]]. discriminate.
        -- intros (t' & Ht & H). injection Ht as <-.
           apply urlRegex_test_http in H. congruence.
    + simpl. split.
      * intros [H|[]]. discriminate.
      * intros (t' & Ht & _). discriminate.
  - unfold req, request, select_tools. simpl tools.
    destruct (hasUrl newInput); [now right|now left].
Qed.

(** C8, as the claim states it, fails for schemes other than http and
    https: "ftp://example.com" is a scheme, [://] and text without white
    space, and the request carries the web-search tool alone. *)
Lemma ftp_url_gets_no_url_tool :
  Spec.contains_scheme_url (lit "ftp://example.com")
  /\ tools (request [] {| input_text := Some (lit "ftp://example.com");
                          input_files := None |} flash)
     = [googleSearch]
  /\ ~ In urlContext
       (tools (request [] {| input_text := Some (lit "ftp://example.com");
                             input_files := None |} flash)).
Proof.
  split.
  - exists [], (lit "ftp"), 101%N, (lit "xample.com"). repeat split; reflexivity.
  - split; [reflexivity|]. intros [H|[]]. discriminate.
Qed.

End SendPipeline.

(* ===================================================================== *)
(** ** Objects: key order *)
(* ===================================================================== *)

Lemma flat_map_agree :
  forall (X Y : Type) (f g : X -> list Y) (l : list X),
    (forall a, In a l -> f a = g a) -> flat_map f l = flat_map g l.
Proof.
  intros X Y f g l H. induction l as [|a l IH]; simpl; [reflexivity|].
  rewrite (H a (or_introl eq_refl)). f_equal. apply IH.
  intros b Hb. apply H. now right.
Qed.

Section KeyOrder.
Variable A : Type.
Implicit Types (o : Obj.object A) (k : jsstring) (v : A).

Lemma insert_by_index_perm :
  forall (e : jsstring * A) l, Permutation (Obj.insert_by_index e l) (e :: l).
Proof.
  intros e l. induction l as [|e' l IH]; simpl; [reflexivity|].
  destruct (N.leb _ _); [reflexivity|].
  rewrite IH. apply perm_swap.
Qed.

Lemma sort_by_index_perm : forall o, Permutation (Obj.sort_by_index o) o.
Proof.
  induction o as [|e o IH]; simpl; [reflexivity|].
  rewrite insert_by_index_perm. now constructor.
Qed.

Lemma partition_perm :
  forall (f : jsstring * A -> bool) o,
    Permutation (filter f o ++ filter (fun e => negb (f e)) o) o.
Proof.
  intros f o. induction o as [|e o IH]; simpl; [reflexivity|].
  destruct (f e); simpl.
  - now constructor.
  - symmetry. apply Permutation_cons_app. now symmetry.
Qed.

Lemma own_entries_perm : forall o, Permutation (Obj.own_entries o) o.
Proof.
  intros o. unfold Obj.own_entries.
  rewrite sort_by_index_perm. apply partition_perm.
Qed.

Lemma own_keys_perm : forall o, Permutation (Obj.keys o) (map fst o).
Proof. intros o. unfold Obj.keys. apply Permutation_map, own_entries_perm. Qed.

(** An object none of whose keys is an array index lists its properties
    in creation order. *)
Lemma own_entries_no_index :
  forall o, forallb (fun e => negb (Obj.is_index (fst e))) o = true ->
            Obj.own_entries o = o.
Proof.
  intros o H. unfold Obj.own_entries.
  assert (H1 : filter (fun e => Obj.is_index (fst e)) o = []).
  { induction o as [|e o IH]; simpl in *; [reflexivity|].
    apply andb_true_iff in H. destruct H as [He Ho].
    apply negb_true_iff in He. rewrite He. now apply IH. }
  assert (H2 : filter (fun e => negb (Obj.is_index (fst e))) o = o).
  { induction o as [|e o IH]; simpl in *; [reflexivity|].
    apply andb_true_iff in H. destruct H as [He Ho].
    rewrite He. f_equal. apply IH; [exact Ho|].
    simpl in H1. apply negb_true_iff in He. rewrite He in H1. exact H1. }
  now rewrite H1, H2.
Qed.

Lemma has_In : forall k o, Obj.has k o = true <-> In k (map fst o).
Proof.
  intros k o. unfold Obj.has. destruct (Obj.get k o) eqn:E.
  - split; [|reflexivity]. intros _.
    destruct (in_dec (list_eq_dec N.eq_dec) k (map fst o)) as [H|H]; [exact H|].
    apply get_None_not_in in H. congruence.
  - split; [discriminate|]. intros H. apply get_None_not_in in E. contradiction.
Qed.

Lemma in_keys_set :
  forall k v o x, In x (map fst (Obj.set k v o)) <-> x = k \/ In x (map fst o).
Proof.
  intros k v o x. rewrite keys_set. destruct (Obj.has k o) eqn:E.
  - apply has_In in E. split; [now right|]. intros [->|H]; assumption.
  - rewrite in_app_iff. simpl. split.
    + intros [H|[H|[]]]; [now right|now left].
    + intros [->|H]; [right; now left|now left].
Qed.

Lemma NoDup_set :
  forall k v o, NoDup (map fst o) -> NoDup (map fst (Obj.set k v o)).
Proof.
  intros k v o H. rewrite keys_set. destruct (Obj.has k o) eqn:E; [exact H|].
  assert (Hk : ~ In k (map fst o)).
  { intros Hin. apply has_In in Hin. congruence. }
  apply NoDup_app; [exact H|repeat constructor; auto|].
  intros x Hx [<-|[]]. contradiction.
Qed.

Lemma NoDup_spread_set :
  forall k v o, NoDup (map fst o) -> NoDup (map fst (Obj.spread_set o k v)).
Proof.
  intros k v o H. unfold Obj.spread_set. apply NoDup_set.
  apply (Permutation_NoDup (l := map fst o)); [|exact H].
  symmetry. apply Permutation_map, own_entries_perm.
Qed.

Lemma in_keys_spread_set :
  forall k v o x,
    In x (map fst (Obj.spread_set o k v)) <-> x = k \/ In x (map fst o).
Proof.
  intros k v o x. unfold Obj.spread_set. rewrite in_keys_set.
  assert (Hperm : Permutation (map fst (Obj.own_entries o)) (map fst o))
    by apply Permutation_map, own_entries_perm.
  split; intros [H|H]; auto; right.
  - exact (Permutation_in _ Hperm H).
  - exact (Permutation_in _ (Permutation_sym Hperm) H).
Qed.

(** The values of an object with distinct keys, read key by key. *)
Lemma values_by_key :
  forall o, NoDup (map fst o) ->
    flat_map (fun i => match Obj.get i o with Some x => [x] | None => [] end)
             (map fst o)
    = map snd o.
Proof.
  induction o as [|[k v] o IH]; intro Hnd; simpl; [reflexivity|].
  rewrite str_eqb_refl. simpl. f_equal.
  inversion Hnd as [|? ? Hk Hnd']; subst.
  rewrite <- (IH Hnd'). apply flat_map_agree.
  intros i Hi. destruct (str_eqb i k) eqn:E; [|reflexivity].
  apply str_eqb_eq in E. subst. contradiction.
Qed.

End KeyOrder.

Lemma mem_In : forall i l, Spec.mem i l = true <-> In i l.
Proof.
  intros i l. induction l as [|j l IH]; simpl; [split; [discriminate|tauto]|].
  rewrite orb_true_iff, IH, str_eqb_eq. split; intros [H|H]; auto.
Qed.

Lemma distinct_In : forall i l, In i (Spec.distinct l) <-> In i l.
Proof.
  intros i l. induction l as [|j l IH]; simpl; [tauto|].
  destruct (Spec.mem j l) eqn:E.
  - rewrite IH. split; [now right|]. intros [<-|H]; [now apply mem_In|exact H].
  - simpl. now rewrite IH.
Qed.

Lemma distinct_NoDup : forall l, NoDup (Spec.distinct l).
Proof.
  induction l as [|j l IH]; simpl; [constructor|].
  destruct (Spec.mem j l) eqn:E; [exact IH|].
  constructor; [|exact IH]. rewrite distinct_In. intros H.
  apply mem_In in H. congruence.
Qed.

(* ===================================================================== *)
(** ** The generated form ([GenerativeForm]) *)
(* ===================================================================== *)

Section Form.
Import GenerativeForm.

Lemma after_snoc : forall evs ev, after (evs ++ [ev]) = handle (after evs) ev.
Proof. intros. unfold after. now rewrite fold_left_app. Qed.

Lemma formData_handle :
  forall st ev,
    formData (handle st ev)
    = match ev with
      | OnField f (Typed v) => Obj.spread_set (formData st) (id f) (FStr v)
      | OnField f (FileChosen file) => Obj.spread_set (formData st) (id f) (FStr (name file))
      | OnField f FileRemoved => Obj.spread_set (formData st) (id f) FNull
      | _ => formData st
      end.
Proof.
  intros st ev. destruct ev as [f e| | |fs|fs|]; try reflexivity.
  - destruct e; reflexivity.
  - simpl. unfold handleDrop. now destruct (0 <? length fs)%nat.
  - simpl. unfold handleManualFileSelect. now destruct (0 <? length fs)%nat.
Qed.

Lemma fileData_handle :
  forall st ev,
    fileData (handle st ev)
    = match ev with
      | OnField f (FileChosen file) => Obj.spread_set (fileData st) (id f) file
      | _ => fileData st
      end.
Proof.
  intros st ev. destruct ev as [f e| | |fs|fs|]; try reflexivity.
  - destruct e; reflexivity.
  - simpl. unfold handleDrop. now destruct (0 <? length fs)%nat.
  - simpl. unfold handleManualFileSelect. now destruct (0 <? length fs)%nat.
Qed.

Lemma from_fields_snoc :
  forall fields evs ev,
    Spec.from_fields fields (evs ++ [ev]) ->
    Spec.from_fields fields evs
    /\ match ev with OnField f _ => In f fields | _ => True end.
Proof.
  intros fields evs ev H. split.
  - intros f e Hin. apply (H f e). apply in_or_app. now left.
  - destruct ev; try exact I. apply (H field ev). apply in_or_app. right. now left.
Qed.

(** The keys of [formData] are distinct, and each is a descriptor id. *)
Lemma formData_keys :
  forall fields evs,
    Spec.from_fields fields evs ->
    NoDup (map fst (formData (after evs)))
    /\ forall x, In x (map fst (formData (after evs))) -> In x (map id fields).
Proof.
  intros fields evs. induction evs as [|ev evs IH] using rev_ind; intros Hfrom.
  - split; [constructor|]. intros x [].
  - apply from_fields_snoc in Hfrom. destruct Hfrom as [Hfrom Hev].
    destruct (IH Hfrom) as [Hnd Hsub]. rewrite after_snoc, formData_handle.
    destruct ev as [f e| | | | |]; try (split; assumption).
    assert (Hid : In (id f) (map id fields)) by now apply in_map.
    destruct e; (split; [now apply NoDup_spread_set|]);
      intros x Hx; apply in_keys_spread_set in Hx;
      destruct Hx as [->|Hx]; auto.
Qed.

(** The code's count of filled keys is the count of descriptor ids that
    have a non-empty value. *)
Lemma completedCount_filled_ids :
  forall fields evs,
    Spec.from_fields fields evs ->
    completedCount (after evs) = length (Spec.filled_ids fields (after evs)).
Proof.
  intros fields evs Hfrom. destruct (formData_keys Hfrom) as [Hnd Hsub].
  unfold completedCount, Spec.filled_ids.
  set (fd := formData (after evs)) in *.
  assert (Hperm : Permutation (Obj.keys fd) (map fst fd)) by apply own_keys_perm.
  apply Permutation_length, NoDup_Permutation.
  - apply NoDup_filter. apply (Permutation_NoDup (Permutation_sym Hperm) Hnd).
  - apply NoDup_filter, distinct_NoDup.
  - intros x. rewrite !filter_In, distinct_In. split; intros [Hin Hp].
    + split; [|exact Hp]. apply Hsub. exact (Permutation_in _ Hperm Hin).
    + split; [|exact Hp]. apply (Permutation_in _ (Permutation_sym Hperm)).
      apply has_In. unfold Obj.has. destruct (Obj.get x fd); [reflexivity|discriminate].
Qed.

(** A submitted form always gets past the guard of [handleSend]: its
    message starts with a letter. *)
Lemma handleFormSubmit_not_returned :
  forall data files useTurbo now st,
    App.handleFormSubmit data files useTurbo now st <> App.Returned.
Proof.
  intros data files useTurbo now st. unfold App.handleFormSubmit.
  match goal with
  | |- App.handleSend ?msg _ _ _ _ _ <> _ => set (finalMessage := msg)
  end.
  assert (Hne : nonempty (trim finalMessage) = true).
  { unfold finalMessage.
    change (lit "Here is the user provided context")
      with (72%N :: lit "ere is the user provided context").
    rewrite <- !app_comm_cons. now apply trim_nonempty_head. }
  unfold App.handleSend. rewrite Hne. cbn [negb andb].
  destruct (Promise_all _); discriminate.
Qed.

Lemma percentage_checked :
  forallb (fun total =>
             forallb (fun count =>
                        Spec.is_nearest_percent count total (Spec.percentage count total))
                     (seq 0 (S total)))
          (seq 1 128)
  = true.
Proof. vm_compute. reflexivity. Qed.

(** For forms of up to 128 descriptors the reported percentage is an
    integer nearest to the exact share, by enumeration. *)
Lemma percentage_is_nearest :
  forall total count,
    (1 <= total <= 128)%nat -> (count <= total)%nat ->
    Spec.is_nearest_percent count total (Spec.percentage count total) = true.
Proof.
  intros total count Ht Hc.
  assert (Hin : In total (seq 1 128)) by (apply in_seq; lia).
  pose proof (proj1 (forallb_forall _ _) percentage_checked total Hin) as Htotal.
  apply (proj1 (forallb_forall _ _) Htotal count).
  apply in_seq. lia.
Qed.

(** Where the exact share lies halfway between two integers, binary64
    arithmetic decides which of the two is reported. *)
Remark percentage_ties :
  Spec.percentage 1 8 = 13%float /\ Spec.percentage 23 40 = 57%float.
Proof. split; vm_compute; reflexivity. Qed.

(** *** The files of a submission *)

Lemma has_mem : forall (o : Obj.object File) k, Obj.has k o = Spec.mem k (map fst o).
Proof.
  intros o k. destruct (Spec.mem k (map fst o)) eqn:E.
  - apply has_In. now apply mem_In.
  - destruct (Obj.has k o) eqn:E'; [|reflexivity].
    apply has_In, mem_In in E'. congruence.
Qed.

Lemma no_index_set :
  forall (o : Obj.object File) k v,
    Obj.is_index k = false ->
    forallb (fun e => negb (Obj.is_index (fst e))) o = true ->
    forallb (fun e => negb (Obj.is_index (fst e))) (Obj.set k v o) = true.
Proof.
  intros o k v Hk. induction o as [|[j w] o IH]; simpl; intro H.
  - now rewrite Hk.
  - apply andb_true_iff in H. destruct H as [Hj Ho].
    destruct (str_eqb k j); simpl; rewrite Hj; simpl; auto.
Qed.

Lemma bound_file_snoc :
  forall i evs ev,
    Spec.bound_file i (evs ++ [ev])
    = match Spec.on_id i ev with
      | Some (FileChosen f) => Some f
      | Some FileRemoved => None
      | Some (Typed _) | None => Spec.bound_file i evs
      end.
Proof. intros. unfold Spec.bound_file. now rewrite fold_left_app. Qed.

Lemma binding_order_snoc :
  forall evs ev,
    Spec.binding_order (evs ++ [ev])
    = match ev with
      | OnField f (FileChosen _) =>
          if Spec.mem (id f) (Spec.binding_order evs) then Spec.binding_order evs
          else Spec.binding_order evs ++ [id f]
      | _ => Spec.binding_order evs
      end.
Proof. intros. unfold Spec.binding_order. now rewrite fold_left_app. Qed.

(** With no descriptor id an array index and no file removed, [fileData]
    holds the bound files, keyed in the order of first binding. *)
Lemma fileData_tracks_bindings :
  forall evs,
    forallb (fun ev => negb (Spec.is_removal ev)) evs = true ->
    forallb (fun ev => negb (Spec.on_array_index ev)) evs = true ->
    let fd := fileData (after evs) in
    map fst fd = Spec.binding_order evs
    /\ (forall i, Obj.get i fd = Spec.bound_file i evs)
    /\ forallb (fun e => negb (Obj.is_index (fst e))) fd = true
    /\ NoDup (map fst fd).
Proof.
  induction evs as [|ev evs IH] using rev_ind; intros Hrem Hidx.
  - repeat split; try reflexivity. constructor.
  - rewrite forallb_app in Hrem, Hidx. simpl in Hrem, Hidx.
    rewrite andb_true_r in Hrem, Hidx.
    apply andb_true_iff in Hrem, Hidx.
    destruct Hrem as [Hrem Hrem1], Hidx as [Hidx Hidx1].
    destruct (IH Hrem Hidx) as (Hkeys & Hget & Hno & Hnd). clear IH.
    cbv zeta. rewrite after_snoc, fileData_handle.
    destruct ev as [f fe| | | | |];
      try (repeat split; auto; [now rewrite binding_order_snoc
                               |intro i; now rewrite bound_file_snoc, Hget]).
    destruct fe as [v|file|]; [| |discriminate].
    + repeat split; auto; [now rewrite binding_order_snoc|].
      intro i. rewrite bound_file_snoc, Hget. simpl.
      now destruct (str_eqb (id f) i).
    + simpl in Hidx1. apply negb_true_iff in Hidx1.
      unfold Obj.spread_set. rewrite (own_entries_no_index _ Hno).
      split; [|split; [|split]].
      * rewrite keys_set, binding_order_snoc, has_mem, Hkeys. reflexivity.
      * intro i. rewrite bound_file_snoc. simpl.
        destruct (str_eqb (id f) i) eqn:E.
        -- apply str_eqb_eq in E. subst i. apply get_set_same.
        -- apply str_eqb_neq in E. rewrite get_set_other; [apply Hget|exact E].
      * now apply no_index_set.
      * now apply NoDup_set.
Qed.

(** C7, as the code has it. As long as no descriptor id is an array index
    and no bound file has been removed, the files handed to [onSubmit] are
    the files bound to the descriptors, in the order in which the
    descriptors first received a file, followed by the extra files in
    attachment order. *)
Theorem files_in_binding_order :
  forall evs useTurbo,
    forallb (fun ev => negb (Spec.is_removal ev)) evs = true ->
    forallb (fun ev => negb (Spec.on_array_index ev)) evs = true ->
    files (handleSubmit useTurbo (after evs))
    = Spec.files_of (Spec.binding_order evs) evs ++ additionalFiles (after evs).
Proof.
  intros evs useTurbo Hrem Hidx.
  destruct (fileData_tracks_bindings evs Hrem Hidx) as (Hkeys & Hget & Hno & Hnd).
  unfold handleSubmit. simpl files. f_equal.
  unfold Obj.values. rewrite (own_entries_no_index _ Hno).
  rewrite <- (values_by_key (fileData (after evs)) Hnd), Hkeys. unfold Spec.files_of.
  apply flat_map_agree. intros i _. now rewrite Hget.
Qed.

Lemma files_in_binding_order_witness :
  files (handleSubmit false (after Scenario.second_field_first))
  = [Scenario.file_b; Scenario.file_a] ++ [Scenario.file_c].
Proof.
  exact (@files_in_binding_order Scenario.second_field_first false eq_refl eq_refl).
Defined.

(** C7, as the claim states it, fails: of two file descriptors the second
    receives its file first, and the submission lists that file first,
    where descriptor order would put it second. *)
Lemma files_not_in_descriptor_order :
  files (handleSubmit false (after Scenario.second_field_first))
  = [Scenario.file_b; Scenario.file_a; Scenario.file_c]
  /\ Spec.files_in_descriptor_order Scenario.two_file_fields Scenario.second_field_first
     ++ additionalFiles (after Scenario.second_field_first)
     = [Scenario.file_a; Scenario.file_b; Scenario.file_c]
  /\ files (handleSubmit false (after Scenario.second_field_first))
     <> Spec.files_in_descriptor_order Scenario.two_file_fields Scenario.second_field_first
        ++ additionalFiles (after Scenario.second_field_first).
Proof.
  split; [reflexivity|]. split; [reflexivity|]. discriminate.
Qed.

(** The remove button of a file field clears the field's value only:
    [fileData] keeps the file, and the submission still carries it. *)
Remark removed_file_is_still_submitted :
  let evs := [OnField (Scenario.field (lit "spec") FILE) (FileChosen Scenario.file_a);
              OnField (Scenario.field (lit "spec") FILE) FileRemoved] in
  Obj.get (lit "spec") (formData (after evs)) = Some FNull
  /\ Spec.bound_file (lit "spec") evs = None
  /\ files (handleSubmit false (after evs)) = [Scenario.file_a].
Proof. repeat split. Qed.

End Form.

(* ===================================================================== *)
(** ** Strings: trimming *)
(* ===================================================================== *)

Section Trimming.

Lemma trimStart_blank_prefix :
  forall pre s, forallb isWhiteSpace pre = true -> trimStart (pre ++ s) = trimStart s.
Proof.
  induction pre as [|c pre IH]; intros s H; simpl in *; [reflexivity|].
  apply andb_true_iff in H. destruct H as [Hc Hpre]. rewrite Hc. now apply IH.
Qed.

Lemma trimStart_split :
  forall l, exists pre, l = pre ++ trimStart l /\ forallb isWhiteSpace pre = true.
Proof.
  induction l as [|c l IH]; simpl.
  - now exists [].
  - destruct (isWhiteSpace c) eqn:E.
    + destruct IH as (pre & Hl & Hpre). exists (c :: pre). simpl.
      rewrite E, Hpre. split; [now f_equal|reflexivity].
    + now exists [].
Qed.

Lemma trimStart_head :
  forall l a r, trimStart l = a :: r -> isWhiteSpace a = false.
Proof.
  induction l as [|c l IH]; intros a r H; simpl in H; [discriminate|].
  destruct (isWhiteSpace c) eqn:E; [now apply (IH a r)|].
  now injection H as <- _.
Qed.

Lemma forallb_rev :
  forall (f : N -> bool) l, forallb f (rev l) = forallb f l.
Proof.
  intros f l. induction l as [|c l IH]; simpl; [reflexivity|].
  rewrite forallb_app, IH. simpl. rewrite andb_true_r. apply andb_comm.
Qed.

(** A text that begins and ends with something other than white space
    comes back from [trim] whatever blanks surround it. *)
Lemma trim_wrapped :
  forall pre post x a r b r',
    forallb isWhiteSpace pre = true -> forallb isWhiteSpace post = true ->
    x = a :: r -> rev x = b :: r' ->
    isWhiteSpace a = false -> isWhiteSpace b = false ->
    trim (pre ++ x ++ post) = x.
Proof.
  intros pre post x a r b r' Hpre Hpost Hx Hrev Ha Hb.
  unfold trim, trimEnd. rewrite (@trimStart_blank_prefix pre _ Hpre).
  assert (E1 : trimStart (x ++ post) = x ++ post).
  { rewrite Hx. simpl. now rewrite Ha. }
  rewrite E1, rev_app_distr, trimStart_blank_prefix
    by (now rewrite forallb_rev).
  rewrite Hrev. simpl. rewrite Hb. rewrite <- Hrev. apply rev_involutive.
Qed.

(** What [trim] returns is empty, or begins and ends with something other
    than white space. *)
Lemma trim_tight :
  forall s, trim s = []
            \/ exists a r b r',
                 trim s = a :: r /\ rev (trim s) = b :: r'
                 /\ isWhiteSpace a = false /\ isWhiteSpace b = false.
Proof.
  intros s. unfold trim, trimEnd.
  destruct (trimStart s) as [|a r] eqn:Et; [now left|].
  pose proof (@trimStart_head _ _ _ Et) as Ha.
  destruct (trimStart_split (rev (a :: r))) as (pre & Hsplit & Hpre).
  destruct (trimStart (rev (a :: r))) as [|b u] eqn:Eu.
  { exfalso. simpl in Eu. exact (trimStart_snoc_nonempty (rev r) a Ha Eu). }
  pose proof (@trimStart_head _ _ _ Eu) as Hb.
  right.
  assert (Hrev : a :: r = rev (b :: u) ++ rev pre).
  { rewrite <- rev_app_distr, <- Hsplit. symmetry. apply rev_involutive. }
  destruct (rev (b :: u)) as [|a' r''] eqn:Er.
  { exfalso. apply (f_equal (@length N)) in Er. rewrite length_rev in Er. discriminate. }
  simpl in Hrev. injection Hrev as <- _.
  exists a, r'', b, u. repeat split; auto.
  rewrite <- Er. apply rev_involutive.
Qed.

Lemma trim_idempotent : forall s, trim (trim s) = trim s.
Proof.
  intros s. destruct (trim_tight s) as [E|(a & r & b & r' & E & Er & Ha & Hb)].
  - rewrite E. reflexivity.
  - pose proof (@trim_wrapped [] [] (trim s) a r b r' eq_refl eq_refl E Er Ha Hb) as H.
    simpl in H. now rewrite app_nil_r in H.
Qed.

End Trimming.

(* ===================================================================== *)
(** ** [cleanJsonOutput] *)
(* ===================================================================== *)

Section Fences.
Import GeminiService.

Lemma strip_prefix_app : forall p r, strip_prefix p (p ++ r) = r.
Proof. intros. unfold strip_prefix. now rewrite startsWith_app, skipn_prefix. Qed.

Lemma strip_suffix_app : forall p b, strip_suffix p (b ++ p) = b.
Proof.
  intros p b. unfold strip_suffix, endsWith.
  rewrite rev_app_distr, startsWith_app, length_app, Nat.add_sub.
  rewrite firstn_app, Nat.sub_diag, firstn_all. simpl. apply app_nil_r.
Qed.

Lemma startsWith_common_prefix :
  forall p q r, startsWith (p ++ q) (p ++ r) = startsWith q r.
Proof.
  induction p as [|c p IH]; intros q r; simpl; [reflexivity|].
  now rewrite N.eqb_refl, IH.
Qed.

(** A body that does not itself begin with "json" cannot, followed by a
    fence, be taken for the tail of a json fence. *)
Lemma not_json_fence :
  forall body, startsWith (lit "json") body = false ->
               startsWith fence_json (fence ++ body ++ fence) = false.
Proof.
  intros body H.
  change fence_json with (fence ++ lit "json"). rewrite startsWith_common_prefix.
  change (lit "json") with [106%N; 115%N; 111%N; 110%N] in *.
  change fence with [96%N; 96%N; 96%N].
  destruct body as [|a [|b [|c [|d r]]]]; cbn [startsWith app] in *;
    try exact H;
    change (N.eqb 106 96) with false; change (N.eqb 115 96) with false;
    change (N.eqb 111 96) with false; change (N.eqb 110 96) with false;
    cbn [andb]; rewrite ?andb_false_r; reflexivity.
Qed.

(** X1. Wrapping a body in a json fence, with blanks around it, is undone:
    what is left is the body, trimmed. *)
Theorem cleanJsonOutput_unwraps_json_fence :
  forall pre body post,
    forallb isWhiteSpace pre = true -> forallb isWhiteSpace post = true ->
    cleanJsonOutput (pre ++ fence_json ++ body ++ fence ++ post) = trim body.
Proof.
  intros pre body post Hpre Hpost. unfold cleanJsonOutput.
  assert (Htrim : trim (pre ++ fence_json ++ body ++ fence ++ post)
                  = fence_json ++ body ++ fence).
  { replace (pre ++ fence_json ++ body ++ fence ++ post)
      with (pre ++ (fence_json ++ body ++ fence) ++ post)
      by (now rewrite <- !app_assoc).
    eapply trim_wrapped; try eassumption.
    - reflexivity.
    - rewrite !rev_app_distr. reflexivity.
    - reflexivity.
    - reflexivity. }
  rewrite Htrim, startsWith_app, strip_prefix_app, strip_suffix_app. reflexivity.
Qed.

Lemma cleanJsonOutput_unwraps_json_fence_witness :
  cleanJsonOutput (lit "  " ++ fence_json ++ (10%N :: qlit "{'a': 1}" ++ [10%N]) ++ fence
                   ++ [10%N])
  = qlit "{'a': 1}".
Proof.
  exact (@cleanJsonOutput_unwraps_json_fence (lit "  ") (10%N :: qlit "{'a': 1}" ++ [10%N])
           [10%N] eq_refl eq_refl).
Defined.

(** X2. The same for a bare fence, as long as the body does not begin with
    "json" (which would make the opening fence a json fence). *)
Theorem cleanJsonOutput_unwraps_bare_fence :
  forall pre body post,
    forallb isWhiteSpace pre = true -> forallb isWhiteSpace post = true ->
    startsWith (lit "json") body = false ->
    cleanJsonOutput (pre ++ fence ++ body ++ fence ++ post) = trim body.
Proof.
  intros pre body post Hpre Hpost Hbody. unfold cleanJsonOutput.
  assert (Htrim : trim (pre ++ fence ++ body ++ fence ++ post)
                  = fence ++ body ++ fence).
  { replace (pre ++ fence ++ body ++ fence ++ post)
      with (pre ++ (fence ++ body ++ fence) ++ post)
      by (now rewrite <- !app_assoc).
    eapply trim_wrapped; try eassumption.
    - reflexivity.
    - rewrite !rev_app_distr. reflexivity.
    - reflexivity.
    - reflexivity. }
  rewrite Htrim, (not_json_fence _ Hbody), startsWith_app,
    strip_prefix_app, strip_suffix_app.
  reflexivity.
Qed.

Lemma cleanJsonOutput_unwraps_bare_fence_witness :
  cleanJsonOutput ([10%N] ++ fence ++ qlit " {'a': 1} " ++ fence ++ lit " ")
  = qlit "{'a': 1}".
Proof.
  exact (@cleanJsonOutput_unwraps_bare_fence [10%N] (qlit " {'a': 1} ") (lit " ")
           eq_refl eq_refl eq_refl).
Defined.

(** X3. The cleaned text never has white space at either end, and a text
    whose trimmed form does not open with a fence is trimmed and nothing
    else, even if it closes with one. *)
Theorem cleanJsonOutput_is_trimmed :
  forall t,
    trim (cleanJsonOutput t) = cleanJsonOutput t
    /\ (startsWith fence (trim t) = false -> cleanJsonOutput t = trim t).
Proof.
  intros t. split.
  - unfold cleanJsonOutput. apply trim_idempotent.
  - intros H. unfold cleanJsonOutput.
    assert (Hj : startsWith fence_json (trim t) = false).
    { destruct (startsWith fence_json (trim t)) eqn:E; [|reflexivity].
      apply startsWith_inv in E. rewrite E in H.
      change fence_json with (fence ++ lit "json") in H.
      rewrite <- app_assoc, startsWith_app in H. discriminate. }
    rewrite Hj, H. apply trim_idempotent.
Qed.

Lemma cleanJsonOutput_is_trimmed_witness :
  cleanJsonOutput (lit " {}``` ") = lit "{}```".
Proof.
  exact (proj2 (cleanJsonOutput_is_trimmed (lit " {}``` ")) eq_refl).
Defined.

End Fences.

(* ===================================================================== *)
(** ** More of [sendMessageToGemini] *)
(* ===================================================================== *)

Section Adapter.
Import GeminiService App.

Lemma includes_spec :
  forall p s, includes p s = true <-> exists pre post, s = pre ++ p ++ post.
Proof.
  intros p s. induction s as [|c s IH].
  - simpl. rewrite orb_false_r. split.
    + intros H. apply startsWith_inv in H. exists [], (skipn (length p) []). exact H.
    + intros (pre & post & E). symmetry in E.
      apply app_eq_nil in E. destruct E as [-> E].
      apply app_eq_nil in E. destruct E as [-> _]. reflexivity.
  - cbn [includes]. rewrite orb_true_iff, IH. split.
    + intros [H | (pre & post & ->)].
      * apply startsWith_inv in H. exists [], (skipn (length p) (c :: s)). exact H.
      * now exists (c :: pre), post.
    + intros (pre & post & E). destruct pre as [|c' pre].
      * left. simpl in E. rewrite E. apply startsWith_app.
      * right. injection E as -> ->. now exists pre, post.
Qed.

(** X4. The reasoning tier of a request is MEDIUM exactly when the model name
    contains "flash", and HIGH otherwise; so the two models the application
    uses get MEDIUM (flash) and HIGH (pro). *)
Theorem thinking_level_by_model :
  forall history newInput modelName,
    let req := request history newInput modelName in
    (thinkingLevel req = lit "MEDIUM"
     <-> exists pre post, modelName = pre ++ lit "flash" ++ post)
    /\ (thinkingLevel req = lit "MEDIUM" \/ thinkingLevel req = lit "HIGH")
    /\ thinkingLevel (request history newInput flash) = lit "MEDIUM"
    /\ thinkingLevel (request history newInput pro) = lit "HIGH".
Proof.
  intros history newInput modelName req. unfold req, request, level. simpl thinkingLevel.
  split; [|split; [|split; reflexivity]].
  - rewrite <- includes_spec. destruct (includes (lit "flash") modelName).
    + split; reflexivity.
    + split; discriminate.
  - destruct (includes (lit "flash") modelName); [now left|now right].
Qed.

(** Once the text has parsed, [receive] ends with a reply or with a
    TypeError. *)
Lemma receive_parsed_outcome :
  forall response t v,
    text response = Some t -> nonempty t = true ->
    JSON.parse (cleanJsonOutput t) = Some v ->
    (exists r, receive (Ok response) = Ok r) \/ receive (Ok response) = Throw TypeError.
Proof.
  intros response t v Ht Hne Hparse. unfold receive, bind.
  rewrite Ht, Hne, Hparse. cbn [negb].
  destruct (default_links v) as [v1|e1] eqn:E1;
    [|apply default_links_throws in E1; subst; now right].
  destruct (groundingChunks response) as [chunks|].
  - destruct (push_links (search_links chunks) v1) as [v2|e2] eqn:E2;
      [|apply push_links_throws in E2; subst; now right].
    destruct (urlMetadata response) as [metas|]; [|left; now eexists].
    destruct (push_links (url_links metas) v2) as [v3|e3] eqn:E3;
      [left; now eexists|apply push_links_throws in E3; subst; now right].
  - destruct (urlMetadata response) as [metas|]; [|left; now eexists].
    destruct (push_links (url_links metas) v1) as [v3|e3] eqn:E3;
      [left; now eexists|apply push_links_throws in E3; subst; now right].
Qed.

(** X5. [sendMessageToGemini] reports a null response exactly when the
    response has no text or an empty one; the text is then not parsed. *)
Theorem null_response_iff_no_text :
  forall response,
    receive (Ok response) = Throw NullResponse
    <-> text response = None \/ text response = Some [].
Proof.
  intros response. split.
  - intros H. destruct (text response) as [t|] eqn:Ht; [|now left].
    destruct t as [|c t]; [now right|]. exfalso.
    destruct (JSON.parse (cleanJsonOutput (c :: t))) as [v|] eqn:Hparse.
    + destruct (@receive_parsed_outcome response (c :: t) v Ht eq_refl Hparse)
        as [(r & Hr)|Hr]; congruence.
    + rewrite (@receive_unparseable response (c :: t) Ht eq_refl Hparse) in H.
      discriminate.
  - intros [H|H]; unfold receive, bind; now rewrite H.
Qed.

(** X6. A link list the model wrote into its reply is kept, in place, and the
    links of the metadata go after it; every other property of the reply
    comes back as it was parsed. *)
Theorem model_links_are_kept :
  forall response t o es named,
    text response = Some t -> nonempty t = true ->
    JSON.parse (cleanJsonOutput t) = Some (VObj o) ->
    prop grounding_links (VObj o) = VArr es named ->
    exists r,
      receive (Ok response) = Ok r
      /\ prop grounding_links r = VArr (es ++ metadata_links response) named
      /\ forall k, k <> grounding_links -> prop k r = prop k (VObj o).
Proof.
  intros response t o es named Ht Hne Hparse Hlinks.
  assert (Hpush : forall links o' es',
             prop grounding_links (VObj o') = VArr es' named ->
             push_links links (VObj o')
             = Ok (VObj (Obj.set grounding_links (VArr (es' ++ links) named) o'))).
  { intros links o' es' H. unfold push_links. now rewrite H. }
  unfold receive, bind. rewrite Ht, Hne, Hparse. cbn [negb].
  unfold default_links. rewrite Hlinks. cbn [truthy].
  unfold metadata_links.
  destruct (groundingChunks response) as [chunks|];
    destruct (urlMetadata response) as [metas|].
  - rewrite (Hpush _ _ _ Hlinks).
    rewrite (Hpush _ _ _ (prop_set_same _ _ _)), set_set.
    eexists. split; [reflexivity|]. split.
    + now rewrite prop_set_same, app_assoc.
    + intros k Hk. apply prop_set_other. congruence.
  - rewrite (Hpush _ _ _ Hlinks).
    eexists. split; [reflexivity|]. split.
    + now rewrite prop_set_same, app_nil_r.
    + intros k Hk. apply prop_set_other. congruence.
  - rewrite (Hpush _ _ _ Hlinks).
    eexists. split; [reflexivity|]. split.
    + now rewrite prop_set_same.
    + intros k Hk. apply prop_set_other. congruence.
  - eexists. split; [reflexivity|]. split.
    + now rewrite Hlinks, app_nil_r.
    + reflexivity.
Qed.

Lemma model_links_are_kept_witness :
  exists r,
    receive (Ok {| text := Some (qlit "{'message':'m','grounding_links':[{'uri':'z'}]}");
                   groundingChunks := Some [Scenario.citation (lit "a")];
                   urlMetadata := None |}) = Ok r
    /\ prop grounding_links r
       = VArr [VObj [(lit "uri", VStr (lit "z"))];
               link (Some (lit "a")) (lit "External Source")] [].
Proof.
  destruct (@model_links_are_kept
              {| text := Some (qlit "{'message':'m','grounding_links':[{'uri':'z'}]}");
                 groundingChunks := Some [Scenario.citation (lit "a")];
                 urlMetadata := None |}
              _ _ [VObj [(lit "uri", VStr (lit "z"))]] [] eq_refl eq_refl eq_refl eq_refl)
    as (r & Hr & Hlinks & _).
  exists r. split; [exact Hr|exact Hlinks].
Defined.

(** X7. A reply text that is valid JSON but no object or array ([null], a
    number, a string, a boolean) ends in a TypeError, not in the schema
    error; the send that waited for it shows the fallback message and leaves
    the history alone. *)
Theorem non_object_reply_is_type_error :
  forall response t v,
    text response = Some t -> nonempty t = true ->
    JSON.parse (cleanJsonOutput t) = Some v ->
    match v with VObj _ | VArr _ _ => False | _ => True end ->
    receive (Ok response) = Throw TypeError
    /\ forall k now st,
         messages (settle k (receive (Ok response)) now st) = messages st ++ [fallback now]
         /\ aiHistory (settle k (receive (Ok response)) now st) = aiHistory st.
Proof.
  intros response t v Ht Hne Hparse Hv.
  assert (Hr : receive (Ok response) = Throw TypeError).
  { unfold receive, bind. rewrite Ht, Hne, Hparse. cbn [negb].
    destruct v; try contradiction; reflexivity. }
  split; [exact Hr|]. intros k now st. rewrite Hr. split; reflexivity.
Qed.

Lemma non_object_reply_is_type_error_witness :
  receive (Ok (Scenario.reply (lit "null"))) = Throw TypeError
  /\ receive (Ok (Scenario.reply (lit "42"))) = Throw TypeError.
Proof.
  split.
  - exact (proj1 (@non_object_reply_is_type_error (Scenario.reply (lit "null")) (lit "null")
                    VNull eq_refl eq_refl eq_refl I)).
  - exact (proj1 (@non_object_reply_is_type_error (Scenario.reply (lit "42")) (lit "42")
                    (VNum 42 0) eq_refl eq_refl eq_refl I)).
Defined.

(** X8. A reply whose [grounding_links] is truthy but no array (a string, a
    number, an object) is returned untouched when the response has no
    grounding metadata, and ends in a TypeError as soon as there is some to
    push onto it. *)
Theorem non_array_links :
  forall response t o,
    text response = Some t -> nonempty t = true ->
    JSON.parse (cleanJsonOutput t) = Some (VObj o) ->
    truthy (prop grounding_links (VObj o)) = true ->
    match prop grounding_links (VObj o) with VArr _ _ => False | _ => True end ->
    (groundingChunks response = None -> urlMetadata response = None ->
     receive (Ok response) = Ok (VObj o))
    /\ (groundingChunks response <> None \/ urlMetadata response <> None ->
        receive (Ok response) = Throw TypeError).
Proof.
  intros response t o Ht Hne Hparse Htruthy Hshape.
  assert (Hpush : forall links, push_links links (VObj o) = Throw TypeError).
  { intros links. unfold push_links.
    destruct (prop grounding_links (VObj o)); try reflexivity. contradiction. }
  unfold receive, bind. rewrite Ht, Hne, Hparse. cbn [negb].
  unfold default_links. rewrite Htruthy. split.
  - intros -> ->. reflexivity.
  - intros [H|H].
    + destruct (groundingChunks response); [now rewrite Hpush|congruence].
    + destruct (groundingChunks response); [now rewrite Hpush|].
      destruct (urlMetadata response); [now rewrite Hpush|congruence].
Qed.

Lemma non_array_links_witness :
  receive (Ok (Scenario.reply (qlit "{'message':'m','grounding_links':'see below'}")))
  = Ok (VObj [(lit "message", VStr (lit "m"));
              (grounding_links, VStr (lit "see below"))])
  /\ receive (Ok {| text := Some (qlit "{'message':'m','grounding_links':'see below'}");
                    groundingChunks := Some [];
                    urlMetadata := None |})
     = Throw TypeError.
Proof.
  split.
  - exact (proj1 (@non_array_links
                    (Scenario.reply (qlit "{'message':'m','grounding_links':'see below'}"))
                    _ _ eq_refl eq_refl eq_refl eq_refl I) eq_refl eq_refl).
  - apply (proj2 (@non_array_links
                    {| text := Some (qlit "{'message':'m','grounding_links':'see below'}");
                       groundingChunks := Some []; urlMetadata := None |}
                    _ _ eq_refl eq_refl eq_refl eq_refl I)).
    left. discriminate.
Defined.

End Adapter.

(* ===================================================================== *)
(** ** What the adapter makes of a reply that parsed *)
(* ===================================================================== *)

Section Replies.
Import GeminiService App Observe.

(** A response without text, or with an empty one, is a null response. *)
Lemma receive_no_text :
  forall response,
    text response = None \/ text response = Some [] ->
    receive (Ok response) = Throw NullResponse.
Proof. intros response [H|H]; unfold receive, bind; now rewrite H. Qed.

(** The schema error comes from a non-empty text that does not parse, and
    from nothing else. *)
Lemma receive_schema_error :
  forall response,
    receive (Ok response) = Throw SchemaMismatch ->
    exists t, text response = Some t /\ nonempty t = true
              /\ JSON.parse (cleanJsonOutput t) = None.
Proof.
  intros response H.
  destruct (text response) as [t|] eqn:Ht;
    [|rewrite receive_no_text in H; [discriminate|now left]].
  destruct (nonempty t) eqn:Hne.
  - exists t. split; [reflexivity|]. split; [exact Hne|].
    destruct (JSON.parse (cleanJsonOutput t)) as [v|] eqn:E; [|reflexivity].
    exfalso. exact (@receive_parsed response t v Ht Hne E H).
  - destruct t; [|discriminate].
    rewrite receive_no_text in H; [discriminate|now right].
Qed.

(** C4, as the code has it. Given a response, [sendMessageToGemini] fails
    with the schema error exactly when the response has a non-empty text
    that, cleaned of its fences, is not parseable JSON. A missing or empty
    text is the null-response error instead, and a text that parses is
    never rejected, whatever keys it lacks. On the schema error the one
    call made is not repeated (the rest of the service's script stays
    unused), and [handleSend] leaves the history as it was, adding only the
    fallback message. *)
Theorem schema_error_iff_unparseable :
  forall response,
    (receive (Ok response) = Throw SchemaMismatch
     <-> exists t, text response = Some t /\ nonempty t = true
                   /\ JSON.parse (cleanJsonOutput t) = None)
    /\ (text response = None \/ text response = Some [] ->
        receive (Ok response) = Throw NullResponse)
    /\ (forall t v,
          text response = Some t -> JSON.parse (cleanJsonOutput t) = Some v ->
          receive (Ok response) <> Throw SchemaMismatch)
    /\ (receive (Ok response) = Throw SchemaMismatch ->
        (forall history newInput modelName script,
           run (sendMessageToGemini history newInput modelName) (Ok response :: script)
           = (Throw SchemaMismatch, [request history newInput modelName], script))
        /\ (forall k now st,
              aiHistory (settle k (receive (Ok response)) now st) = aiHistory st
              /\ messages (settle k (receive (Ok response)) now st)
                 = messages st ++ [fallback now])).
Proof.
  intros response. split; [|split; [|split]].
  - split; [apply receive_schema_error|].
    intros (t & Ht & Hne & Hparse). exact (@receive_unparseable response t Ht Hne Hparse).
  - apply receive_no_text.
  - intros t v Ht Hparse H.
    destruct (receive_schema_error response H) as (t' & Ht' & _ & Hparse').
    congruence.
  - intros Hr. split.
    + intros. rewrite run_sendMessageToGemini. now rewrite Hr.
    + intros. rewrite Hr. split; reflexivity.
Qed.

Lemma schema_error_iff_unparseable_witness :
  receive (Ok (Scenario.reply (lit "not json"))) = Throw SchemaMismatch
  /\ receive (Ok (Scenario.reply [])) = Throw NullResponse
  /\ run (sendMessageToGemini [] {| input_text := Some (lit "hi"); input_files := None |} flash)
         [Ok (Scenario.reply (lit "not json")); Ok (Scenario.reply (lit "{}"))]
     = (Throw SchemaMismatch,
        [request [] {| input_text := Some (lit "hi"); input_files := None |} flash],
        [Ok (Scenario.reply (lit "{}"))]).
Proof.
  destruct (schema_error_iff_unparseable (Scenario.reply (lit "not json")))
    as [[_ H] [_ [_ Hrest]]].
  assert (Hr : receive (Ok (Scenario.reply (lit "not json"))) = Throw SchemaMismatch).
  { apply H. exists (lit "not json"). repeat split. }
  split; [exact Hr|]. split.
  - apply (proj1 (proj2 (schema_error_iff_unparseable (Scenario.reply [])))).
    right. reflexivity.
  - apply (proj1 (Hrest Hr)).
Defined.

(** *** The status is not looked at *)

Lemma differ_in_status_set :
  forall s o, Status.differ_in_status s o (Obj.set (lit "status") s o).
Proof.
  intros s o. split; [apply get_set_same|].
  intros k Hk. apply get_set_other. congruence.
Qed.

Lemma differ_in_status_links :
  forall s a b v,
    Status.differ_in_status s a b ->
    Status.differ_in_status s (Obj.set grounding_links v a) (Obj.set grounding_links v b).
Proof.
  intros s a b v [Hs Hrest]. split.
  - rewrite get_set_other; [exact Hs|discriminate].
  - intros k Hk. destruct (str_eqb grounding_links k) eqn:E.
    + apply str_eqb_eq in E. subst k. now rewrite !get_set_same.
    + apply str_eqb_neq in E. rewrite !get_set_other by exact E. now apply Hrest.
Qed.

Lemma differ_in_status_prop :
  forall s a b,
    Status.differ_in_status s a b ->
    prop grounding_links (VObj b) = prop grounding_links (VObj a).
Proof.
  intros s a b [_ Hrest]. simpl. rewrite Hrest; [reflexivity|discriminate].
Qed.

Lemma same_but_status_bind :
  forall s ra rb (f : value -> result value),
    Status.same_but_status s ra rb ->
    (forall a b, Status.differ_in_status s a b ->
                 Status.same_but_status s (f (VObj a)) (f (VObj b))) ->
    Status.same_but_status s (bind ra f) (bind rb f).
Proof.
  intros s ra rb f H Hf.
  destruct ra as [va|ea], rb as [vb|eb];
    [destruct va, vb| destruct va | |]; simpl in H; try contradiction; simpl.
  - now apply Hf.
  - exact H.
Qed.

Lemma default_links_status :
  forall s a b,
    Status.differ_in_status s a b ->
    Status.same_but_status s (default_links (VObj a)) (default_links (VObj b)).
Proof.
  intros s a b H. unfold default_links.
  rewrite (differ_in_status_prop H).
  destruct (truthy (prop grounding_links (VObj a))); simpl; [exact H|].
  now apply differ_in_status_links.
Qed.

Lemma push_links_status :
  forall s links a b,
    Status.differ_in_status s a b ->
    Status.same_but_status s (push_links links (VObj a)) (push_links links (VObj b)).
Proof.
  intros s links a b H. unfold push_links.
  rewrite (differ_in_status_prop H).
  destruct (prop grounding_links (VObj a)); simpl; try reflexivity.
  now apply differ_in_status_links.
Qed.

(** Two responses that differ only in the status their reply objects
    carry have the same outcome, but for that status. *)
Lemma receive_status :
  forall s response response' t t' o,
    groundingChunks response' = groundingChunks response ->
    urlMetadata response' = urlMetadata response ->
    text response = Some t -> nonempty t = true ->
    text response' = Some t' -> nonempty t' = true ->
    JSON.parse (cleanJsonOutput t) = Some (VObj o) ->
    JSON.parse (cleanJsonOutput t') = Some (VObj (Obj.set (lit "status") s o)) ->
    Status.same_but_status s (receive (Ok response)) (receive (Ok response')).
Proof.
  intros s response response' t t' o Hc Hm Ht Hne Ht' Hne' Hparse Hparse'.
  unfold receive. cbn [bind]. rewrite Ht, Hne, Ht', Hne', Hparse, Hparse', Hc, Hm.
  cbn [negb bind].
  apply same_but_status_bind; [apply default_links_status, differ_in_status_set|].
  intros a b Hab.
  apply same_but_status_bind.
  { destruct (groundingChunks response); [now apply push_links_status|exact Hab]. }
  intros a1 b1 Hab1.
  apply same_but_status_bind.
  { destruct (urlMetadata response); [now apply push_links_status|exact Hab1]. }
  intros a2 b2 Hab2. exact Hab2.
Qed.

(** A reply object whose [grounding_links] is absent, falsy or an array [base]
    comes back with the links of the metadata after [base], and is otherwise
    untouched. *)
Lemma receive_links :
  forall response t o base named,
    text response = Some t -> nonempty t = true ->
    JSON.parse (cleanJsonOutput t) = Some (VObj o) ->
    (truthy (prop grounding_links (VObj o)) = false /\ base = [] /\ named = [])
    \/ prop grounding_links (VObj o) = VArr base named ->
    exists r,
      receive (Ok response) = Ok r
      /\ prop grounding_links r = VArr (base ++ metadata_links response) named
      /\ forall k, k <> grounding_links -> prop k r = prop k (VObj o).
Proof.
  intros response t o base named Ht Hne Hparse [(Hfalsy & -> & ->)|Hlinks].
  - eexists. split; [exact (@receive_object response t o Ht Hne Hparse Hfalsy)|]. split.
    + now rewrite prop_set_same.
    + intros k Hk. apply prop_set_other. congruence.
  - assert (Hpush : forall links o' es',
               prop grounding_links (VObj o') = VArr es' named ->
               push_links links (VObj o')
               = Ok (VObj (Obj.set grounding_links (VArr (es' ++ links) named) o'))).
    { intros links o' es' H. unfold push_links. now rewrite H. }
    unfold receive, bind. rewrite Ht, Hne, Hparse. cbn [negb].
    unfold default_links. rewrite Hlinks. cbn [truthy].
    unfold metadata_links.
    destruct (groundingChunks response) as [chunks|];
      destruct (urlMetadata response) as [metas|].
    + rewrite (Hpush _ _ _ Hlinks).
      rewrite (Hpush _ _ _ (prop_set_same _ _ _)), set_set.
      eexists. split; [reflexivity|]. split.
      * now rewrite prop_set_same, app_assoc.
      * intros k Hk. apply prop_set_other. congruence.
    + rewrite (Hpush _ _ _ Hlinks).
      eexists. split; [reflexivity|]. split.
      * now rewrite prop_set_same, app_nil_r.
      * intros k Hk. apply prop_set_other. congruence.
    + rewrite (Hpush _ _ _ Hlinks).
      eexists. split; [reflexivity|]. split.
      * now rewrite prop_set_same.
      * intros k Hk. apply prop_set_other. congruence.
    + eexists. split; [reflexivity|]. split.
      * now rewrite Hlinks, app_nil_r.
      * reflexivity.
Qed.

(** C5, as the code has it. A status that is neither "COLLECTING" nor
    "COMPLETE" is no reason to fail. The adapter does not look at the
    status: a reply that parsed is returned or ends in a TypeError, never in
    the schema error, and a reply object fares as the same object with any
    other status does (the same error, or the same reply returned, but for
    the status). A reply object
    whose [grounding_links] is absent, falsy or an array is returned with
    its status untouched. And of every reply with such a status that it is
    handed, [handleSend] makes an assistant message that carries the
    reply's message text and links but no field descriptors, no analysis
    and no final output; the two turns join the history. *)
Theorem unknown_status_is_accepted :
  forall k now st aiResponse,
    strict_eq_str (prop (lit "status") aiResponse) (lit "COLLECTING") = false ->
    strict_eq_str (prop (lit "status") aiResponse) (lit "COMPLETE") = false ->
    let m := newAiMsg now aiResponse in
    let final := settle k (Ok aiResponse) now st in
    (messages final = messages st ++ [m]
     /\ content m = prop (lit "message") aiResponse
     /\ uiFields m = VUndefined /\ analysis m = VUndefined /\ final_output m = VUndefined
     /\ groundingLinks m = prop grounding_links aiResponse
     /\ aiHistory final = aiHistory st ++ [userTurn k; modelTurn aiResponse])
    /\ (forall response t v,
          text response = Some t -> nonempty t = true ->
          JSON.parse (cleanJsonOutput t) = Some v ->
          receive (Ok response) <> Throw SchemaMismatch
          /\ ((exists r, receive (Ok response) = Ok r)
              \/ receive (Ok response) = Throw TypeError))
    /\ (forall s response response' t t' o,
          groundingChunks response' = groundingChunks response ->
          urlMetadata response' = urlMetadata response ->
          text response = Some t -> nonempty t = true ->
          text response' = Some t' -> nonempty t' = true ->
          JSON.parse (cleanJsonOutput t) = Some (VObj o) ->
          JSON.parse (cleanJsonOutput t') = Some (VObj (Obj.set (lit "status") s o)) ->
          Status.same_but_status s (receive (Ok response)) (receive (Ok response')))
    /\ (forall response t o,
          text response = Some t -> nonempty t = true ->
          JSON.parse (cleanJsonOutput t) = Some (VObj o) ->
          truthy (prop grounding_links (VObj o)) = false
          \/ (exists base named, prop grounding_links (VObj o) = VArr base named) ->
          exists r, receive (Ok response) = Ok r
                    /\ prop (lit "status") r = prop (lit "status") (VObj o)).
Proof.
  intros k now st aiResponse Hc Hd m final. split; [|split; [|split]].
  - split; [reflexivity|].
    unfold m, newAiMsg. simpl. rewrite Hc, Hd. repeat split; reflexivity.
  - intros response t v Ht Hne Hparse. split.
    + exact (@receive_parsed response t v Ht Hne Hparse).
    + exact (@receive_parsed_outcome response t v Ht Hne Hparse).
  - intros s response response' t t' o. apply receive_status.
  - intros response t o Ht Hne Hparse Hlinks.
    assert (H : exists base named,
               (truthy (prop grounding_links (VObj o)) = false /\ base = [] /\ named = [])
               \/ prop grounding_links (VObj o) = VArr base named).
    { destruct Hlinks as [Hfalsy|(base & named & Harr)].
      - exists [], []. left. repeat split. exact Hfalsy.
      - exists base, named. now right. }
    destruct H as (base & named & H).
    destruct (@receive_links response t o base named Ht Hne Hparse H) as (r & Hr & _ & Hrest).
    exists r. split; [exact Hr|]. apply Hrest. discriminate.
Qed.

Lemma unknown_status_is_accepted_witness :
  let r := VObj [(lit "status", VStr (lit "PENDING")); (lit "message", VStr (lit "hi"))] in
  uiFields (newAiMsg 7 r) = VUndefined
  /\ content (newAiMsg 7 r) = VStr (lit "hi")
  /\ length (aiHistory (settle {| sent_text := lit "x"; processedFiles := [] |}
                          (Ok r) 7 initial)) = 2%nat
  /\ Status.same_but_status (VStr (lit "COMPLETE"))
       (receive (Ok (Scenario.reply Cases.pending_text)))
       (receive (Ok (Scenario.reply Cases.complete_text)))
  /\ exists r', receive (Ok (Scenario.reply Cases.pending_text)) = Ok r'
                /\ prop (lit "status") r' = VStr (lit "PENDING").
Proof.
  intros r.
  destruct (@unknown_status_is_accepted {| sent_text := lit "x"; processedFiles := [] |}
              7%N initial r eq_refl eq_refl)
    as [(_ & Hcontent & Hfields & _ & _ & _ & Hhist) [_ [Hsame Hret]]].
  split; [exact Hfields|]. split; [exact Hcontent|].
  split; [rewrite Hhist; reflexivity|]. split.
  - exact (@Hsame (VStr (lit "COMPLETE"))
             (Scenario.reply Cases.pending_text) (Scenario.reply Cases.complete_text)
             Cases.pending_text Cases.complete_text
             [(lit "status", VStr (lit "PENDING")); (lit "message", VStr (lit "hi"))]
             eq_refl eq_refl eq_refl eq_refl eq_refl eq_refl eq_refl eq_refl).
  - exact (@Hret (Scenario.reply Cases.pending_text) Cases.pending_text
             [(lit "status", VStr (lit "PENDING")); (lit "message", VStr (lit "hi"))]
             eq_refl eq_refl eq_refl (or_introl eq_refl)).
Defined.

(** C6. For a reply object whose [grounding_links] is absent or falsy the
    returned link list starts empty, and for one that brings a list it
    starts with that list. After it come the search citations (the chunks
    that have a [web] entry), each as a link with the citation's uri and its
    title or, if that is missing or empty, "External Source"; then the
    URL-fetch results, each as a link with the retrieved URL and the title
    "Retrieved Page Context". Both groups are in the order of the metadata,
    one link per entry, none dropped for being a duplicate, and no other
    property of the reply changes. *)
Theorem grounding_links_in_order :
  forall response t o base named,
    text response = Some t -> nonempty t = true ->
    JSON.parse (cleanJsonOutput t) = Some (VObj o) ->
    (truthy (prop grounding_links (VObj o)) = false /\ base = [] /\ named = [])
    \/ prop grounding_links (VObj o) = VArr base named ->
    let cs := match groundingChunks response with Some c => c | None => [] end in
    let ms := match urlMetadata response with Some m => m | None => [] end in
    exists r,
      receive (Ok response) = Ok r
      /\ prop grounding_links r
         = VArr (base
                 ++ flat_map
                      (fun chunk =>
                         match web chunk with
                         | Some w =>
                             [VObj [(lit "uri", match uri w with
                                                | Some u => VStr u
                                                | None => VUndefined
                                                end);
                                    (lit "title",
                                     VStr (match title w with
                                           | Some s => if nonempty s then s
                                                       else lit "External Source"
                                           | None => lit "External Source"
                                           end))]]
                         | None => []
                         end) cs
                 ++ map
                      (fun meta =>
                         VObj [(lit "uri",
                                match retrievedUrl meta with
                                | Some u =>
                                    if nonempty u then VStr u
                                    else match retrieved_url meta with
                                         | Some u' => VStr u'
                                         | None => VUndefined
                                         end
                                | None =>
                                    match retrieved_url meta with
                                    | Some u' => VStr u'
                                    | None => VUndefined
                                    end
                                end);
                               (lit "title", VStr (lit "Retrieved Page Context"))]) ms)
                named
      /\ forall k, k <> grounding_links -> prop k r = prop k (VObj o).
Proof.
  intros response t o base named Ht Hne Hparse Hown cs ms.
  destruct (@receive_links response t o base named Ht Hne Hparse Hown)
    as (r & Hr & Hlinks & Hrest).
  exists r. split; [exact Hr|]. split; [|exact Hrest].
  rewrite Hlinks. f_equal. f_equal.
  assert (Hs : forall chunks,
             search_links chunks
             = flat_map
                 (fun chunk =>
                    match web chunk with
                    | Some w =>
                        [VObj [(lit "uri", match uri w with
                                           | Some u => VStr u
                                           | None => VUndefined
                                           end);
                               (lit "title",
                                VStr (match title w with
                                      | Some s => if nonempty s then s
                                                  else lit "External Source"
                                      | None => lit "External Source"
                                      end))]]
                    | None => []
                    end) chunks).
  { induction chunks as [|c chunks IH]; [reflexivity|].
    unfold search_links, webs in *. simpl.
    destruct (web c) as [w|]; simpl; [|exact IH].
    f_equal. exact IH. }
  assert (Hu : forall metas,
             url_links metas
             = map
                 (fun meta =>
                    VObj [(lit "uri",
                           match retrievedUrl meta with
                           | Some u =>
                               if nonempty u then VStr u
                               else match retrieved_url meta with
                                    | Some u' => VStr u'
                                    | None => VUndefined
                                    end
                           | None =>
                               match retrieved_url meta with
                               | Some u' => VStr u'
                               | None => VUndefined
                               end
                           end);
                          (lit "title", VStr (lit "Retrieved Page Context"))]) metas).
  { intros metas. unfold url_links. apply map_ext. intros meta.
    unfold link, or_str, truthy_str.
    destruct (retrievedUrl meta) as [u|]; [|reflexivity].
    destruct (nonempty u); reflexivity. }
  unfold metadata_links, cs, ms.
  destruct (groundingChunks response) as [chunks|];
    destruct (urlMetadata response) as [metas|];
    rewrite ?Hs, ?Hu; reflexivity.
Qed.

Lemma grounding_links_in_order_witness :
  exists r,
    receive (Ok Scenario.grounded) = Ok r
    /\ prop grounding_links r
       = VArr [VObj [(lit "uri", VStr (lit "a")); (lit "title", VStr (lit "External Source"))];
               VObj [(lit "uri", VStr (lit "b")); (lit "title", VStr (lit "External Source"))];
               VObj [(lit "uri", VStr (lit "c"));
                     (lit "title", VStr (lit "Retrieved Page Context"))]] [].
Proof.
  destruct (@grounding_links_in_order Scenario.grounded
              (qlit "{'status':'COMPLETE','message':'done'}")
              [(lit "status", VStr (lit "COMPLETE")); (lit "message", VStr (lit "done"))]
              [] [] eq_refl eq_refl eq_refl
              (or_introl (conj eq_refl (conj eq_refl eq_refl))))
    as (r & Hr & Hlinks & _).
  exists r. split; [exact Hr | exact Hlinks].
Defined.

(** The same citation twice gives the same link twice. *)
Example duplicate_citations_are_kept :
  receive (Ok {| text := Some (lit "{}");
                 groundingChunks := Some [Scenario.citation (lit "a");
                                          Scenario.citation (lit "a")];
                 urlMetadata := None |})
  = Ok (VObj [(grounding_links,
               VArr [VObj [(lit "uri", VStr (lit "a"));
                           (lit "title", VStr (lit "External Source"))];
                     VObj [(lit "uri", VStr (lit "a"));
                           (lit "title", VStr (lit "External Source"))]] [])]).
Proof. reflexivity. Qed.

End Replies.

(* ===================================================================== *)
(** ** More of the send pipeline *)
(* ===================================================================== *)

Section Sending.
Import GeminiService App Observe Shell.

Lemma split_on_no_sep :
  forall sep s cur,
    forallb (fun c => negb (N.eqb c sep)) s = true ->
    split_on sep s cur = [rev cur ++ s].
Proof.
  intros sep s. induction s as [|c s IH]; intros cur H; simpl in *.
  - now rewrite app_nil_r.
  - apply andb_true_iff in H. destruct H as [Hc Hs].
    apply negb_true_iff in Hc. rewrite Hc, (IH _ Hs). simpl.
    now rewrite <- app_assoc.
Qed.

Lemma split_on_first_sep :
  forall sep h p cur,
    forallb (fun c => negb (N.eqb c sep)) h = true ->
    split_on sep (h ++ sep :: p) cur = (rev cur ++ h) :: split_on sep p [].
Proof.
  intros sep h. induction h as [|c h IH]; intros p cur H; simpl in *.
  - now rewrite N.eqb_refl, app_nil_r.
  - apply andb_true_iff in H. destruct H as [Hc Hh].
    apply negb_true_iff in Hc. rewrite Hc, (IH _ _ Hh). simpl.
    now rewrite <- app_assoc.
Qed.

(** X9. [fileToBase64] gives what follows the first comma of the data URL, up
    to the next comma if there is one: for a URL of the usual shape, header,
    comma, payload, that is the payload. A URL without a comma gives
    [undefined], and a reader error is passed on. *)
Theorem fileToBase64_payload :
  forall f,
    (forall header payload,
       dataURL f = Ok (header ++ 44%N :: payload) ->
       no_comma header = true -> no_comma payload = true ->
       fileToBase64 f = Ok (Some payload))
    /\ (forall url, dataURL f = Ok url -> no_comma url = true ->
                    fileToBase64 f = Ok None)
    /\ (forall e, dataURL f = Throw e -> fileToBase64 f = Throw e).
Proof.
  intros f. unfold fileToBase64, bind, split. split; [|split].
  - intros header payload Hurl Hh Hp. rewrite Hurl.
    unfold no_comma in *.
    rewrite (@split_on_first_sep _ _ _ _ Hh), (@split_on_no_sep _ _ _ Hp). reflexivity.
  - intros url Hurl Hu. unfold no_comma in Hu.
    rewrite Hurl, (@split_on_no_sep _ _ _ Hu). reflexivity.
  - intros e Hurl. now rewrite Hurl.
Qed.

Lemma fileToBase64_payload_witness :
  fileToBase64 Scenario.file_a = Ok (Some (lit "QUJD")).
Proof.
  exact (proj1 (fileToBase64_payload Scenario.file_a)
           (lit "data:image/png;base64") (lit "QUJD") eq_refl eq_refl eq_refl).
Defined.

Lemma Promise_all_throws :
  forall (A : Type) (ps : list (result A)) e,
    In (Throw e) ps -> exists e', Promise_all ps = Throw e'.
Proof.
  intros A ps e. induction ps as [|p ps IH]; intros H; [destruct H|].
  simpl. destruct p as [a|e0]; [|now exists e0].
  destruct H as [H|H]; [discriminate|].
  destruct (IH H) as (e' & He'). exists e'. simpl. now rewrite He'.
Qed.

Lemma Promise_all_map :
  forall (A B : Type) (g : A -> result B) l xs,
    Promise_all (map g l) = Ok xs -> Forall2 (fun x y => g x = Ok y) l xs.
Proof.
  intros A B g l. induction l as [|x l IH]; intros xs H; simpl in H.
  - injection H as <-. constructor.
  - destruct (g x) as [y|e] eqn:Ex; simpl in H; [|discriminate].
    destruct (Promise_all (map g l)) as [ys|e]; simpl in H; [|discriminate].
    injection H as <-. constructor; [exact Ex|now apply IH].
Qed.

(** X10. A file that cannot be read makes the whole send reject before
    anything happens: no user message, no request, and the staged files
    and the input stay as they are. *)
Theorem unreadable_file_rejects_send :
  forall text files modelName loadingOverride now st f e,
    In f (files ++ stagedFiles st) -> dataURL f = Throw e ->
    exists e',
      handleSend text files modelName loadingOverride now st = Rejected e'
      /\ state_after st (handleSend text files modelName loadingOverride now st) = st
      /\ issued (handleSend text files modelName loadingOverride now st) = [].
Proof.
  intros text files modelName loadingOverride now st f e Hin Hf.
  unfold handleSend.
  destruct (files ++ stagedFiles st) as [|f0 fs] eqn:Efiles; [destruct Hin|].
  rewrite andb_false_r.
  rewrite <- Efiles in *.
  match goal with |- context [Promise_all ?ps] => destruct (@Promise_all_throws _ ps e) as (e' & He') end.
  - apply in_map_iff. exists f. split; [|exact Hin].
    unfold fileToBase64, bind. now rewrite Hf.
  - exists e'. rewrite He'. repeat split.
Qed.

Lemma unreadable_file_rejects_send_witness :
  let broken := {| name := lit "x.bin"; file_type := lit ""; dataURL := Throw ReadError |} in
  let st := Shell.handleGlobalDrop [Scenario.file_a; broken] (setInput (lit "look") initial) in
  exists e', handleSend (lit "look") [] flash None 1000 st = Rejected e'
             /\ state_after st (handleSend (lit "look") [] flash None 1000 st) = st
             /\ issued (handleSend (lit "look") [] flash None 1000 st) = [].
Proof.
  intros broken st.
  apply (@unreadable_file_rejects_send (lit "look") [] flash None 1000%N st broken ReadError).
  - right. now left.
  - reflexivity.
Defined.

Lemma inline_parts :
  forall fs : list Attachment,
    map (fun f => InlineData {| mimeType := mimeType f; data := data f |}) fs
    = map InlineData fs.
Proof. intros fs. apply map_ext. now intros []. Qed.

(** X11. The request a send issues carries the history as it stood, unchanged
    and in order, then one user turn: the text (unless it is empty), then
    one inline part per file, the files passed to the send before the
    staged ones, each with its MIME type and its Base64 payload. *)
Theorem request_carries_history_and_files :
  forall text files modelName loadingOverride now st st' call k,
    handleSend text files modelName loadingOverride now st = Sent st' call k ->
    exists processed,
      Forall2 (fun f a => mimeType a = file_type f /\ fileToBase64 f = Ok (data a))
              (files ++ stagedFiles st) processed
      /\ exists req,
           issued (Sent st' call k) = [req]
           /\ model req = modelName
           /\ contents req
              = aiHistory st
                ++ [{| content_role := lit "user";
                       parts := (if nonempty text then [TextPart text] else [])
                                ++ map InlineData processed |}].
Proof.
  intros text files modelName loadingOverride now st st' call k H.
  unfold handleSend in H.
  destruct (negb (nonempty (trim text)) && (length (files ++ stagedFiles st) =? 0)%nat);
    [discriminate|].
  destruct (Promise_all _) as [processed|e] eqn:Eall; [|discriminate].
  injection H as <- <- <-. exists processed. split.
  - apply Promise_all_map in Eall.
    induction Eall as [|f a fs ps Hfa _ IH]; constructor; [|exact IH].
    unfold bind in Hfa. destruct (fileToBase64 f) as [d|e]; [|discriminate].
    injection Hfa as <-. split; reflexivity.
  - eexists. split; [reflexivity|]. split; [reflexivity|].
    simpl contents. unfold currentParts. simpl.
    rewrite inline_parts. now destruct (nonempty text).
Qed.

Lemma request_carries_history_and_files_witness :
  let st := Shell.handleGlobalDrop [Scenario.file_b] (setInput (lit "look") initial) in
  exists st' call k req,
    handleSend (lit "look") [Scenario.file_a] flash None 1000 st = Sent st' call k
    /\ issued (Sent st' call k) = [req]
    /\ contents req
       = [{| content_role := lit "user";
             parts := [TextPart (lit "look");
                       InlineData {| mimeType := lit "image/png"; data := Some (lit "QUJD") |};
                       InlineData {| mimeType := lit "text/plain"; data := Some (lit "REVG") |}] |}].
Proof.
  intros st.
  destruct (@request_carries_history_and_files (lit "look") [Scenario.file_a] flash None
              1000%N st _ _ _ eq_refl) as (processed & _ & req & Hreq & _ & _).
  eexists. eexists. eexists. exists req.
  split; [reflexivity|]. split; [exact Hreq|].
  vm_compute in Hreq. injection Hreq as <-. reflexivity.
Defined.

(** X12. However the call of a send settles, the loading indicator is cleared,
    the user's own message stays in the log, and exactly one assistant
    message follows it: the reply's, or the fallback. *)
Theorem settle_keeps_the_user_message :
  forall text files modelName loadingOverride now st st' call k,
    handleSend text files modelName loadingOverride now st = Sent st' call k ->
    forall settled now',
      let final := settle k (receive settled) now' st' in
      isLoading final = false
      /\ loadingStep final = lit "Thinking..."
      /\ exists mine theirs,
           messages final = messages st ++ [mine; theirs]
           /\ role mine = user /\ content mine = VStr text
           /\ role theirs = ai
           /\ (forall r, receive settled = Ok r -> theirs = newAiMsg now' r)
           /\ (forall e, receive settled = Throw e -> theirs = fallback now').
Proof.
  intros text files modelName loadingOverride now st st' call k H settled now' final.
  destruct (@handleSend_sent _ _ _ _ _ _ _ _ _ H) as (processed & _ & _ & Hmsgs & _).
  split; [reflexivity|]. split; [reflexivity|].
  unfold final. destruct (receive settled) as [r|e].
  - exists (newUserMsg now text (files ++ stagedFiles st) processed), (newAiMsg now' r).
    split; [simpl; rewrite Hmsgs, <- app_assoc; reflexivity|].
    repeat split; try reflexivity; congruence.
  - exists (newUserMsg now text (files ++ stagedFiles st) processed), (fallback now').
    split; [simpl; rewrite Hmsgs, <- app_assoc; reflexivity|].
    repeat split; try reflexivity; congruence.
Qed.

Lemma settle_keeps_the_user_message_witness :
  exists st' call k,
    handleSend (lit "hello") [] flash None 1000 initial = Sent st' call k
    /\ isLoading (settle k (receive (Throw ApiError)) 2000 st') = false
    /\ map role (messages (settle k (receive (Throw ApiError)) 2000 st')) = [ai; user; ai].
Proof.
  eexists. eexists. eexists. split; [reflexivity|].
  destruct (@settle_keeps_the_user_message (lit "hello") [] flash None 1000%N initial
              _ _ _ eq_refl (Throw ApiError) 2000%N) as (Hload & _ & _).
  split; [exact Hload|reflexivity].
Defined.

End Sending.

(* ===================================================================== *)
(** ** The application as a whole *)
(* ===================================================================== *)

Section Application.
Import GeminiService App Observe Shell.

(** What any entry point leaves behind when it does send. *)
Lemma enter_sent :
  forall ep now st st' call k,
    enter ep now st = Sent st' call k ->
    exists text files override processed,
      handleSend text files (model_of ep) override now st = Sent st' call k
      /\ call = sendMessageToGemini (aiHistory st)
                  {| input_text := Some text; input_files := Some processed |} (model_of ep)
      /\ aiHistory st' = aiHistory st
      /\ messages st'
         = messages st ++ [newUserMsg now text (files ++ stagedFiles st) processed].
Proof.
  intros ep now st st' call k H. unfold enter in H.
  destruct ep as [|key shiftKey|data files useTurbo].
  - destruct (submit_disabled st); [discriminate|].
    destruct (@handleSend_sent _ _ _ _ _ _ _ _ _ H) as (p & _ & Hc & Hm & Hh & _).
    exists (input st), [], None, p. auto.
  - destruct (str_eqb key (lit "Enter") && negb shiftKey); [|discriminate].
    destruct (@handleSend_sent _ _ _ _ _ _ _ _ _ H) as (p & _ & Hc & Hm & Hh & _).
    exists (input st), [], None, p. auto.
  - destruct (form_shown st); [|discriminate]. unfold handleFormSubmit in H.
    destruct (@handleSend_sent _ _ _ _ _ _ _ _ _ H) as (p & _ & Hc & Hm & Hh & _).
    destruct useTurbo;
      match type of H with
      | handleSend ?t ?f _ ?o _ _ = _ => exists t, f, o, p
      end; auto.
Qed.

(** X13. Each entry point asks for its own model, reasoning tier and loading
    text: a plain send (button or Enter) uses the flash model at tier MEDIUM;
    the form's fast button does the same, its deep button uses the pro model
    at tier HIGH; a form submission shows "Thinking and Analyzing...", a
    plain send "Generating visual interface..." while the log holds only the
    greeting and "Let me think about it..." afterwards. *)
Theorem entry_point_decides_model :
  forall ep now st st' call k,
    enter ep now st = Sent st' call k ->
    exists req,
      issued (Sent st' call k) = [req]
      /\ model req = model_of ep
      /\ thinkingLevel req = tier_of ep
      /\ loadingStep st' = loading_text_of ep st
      /\ isLoading st' = true.
Proof.
  intros ep now st st' call k H.
  destruct (@enter_sent _ _ _ _ _ _ H) as (text & files & override & p & _ & Hcall & _).
  eexists. split; [simpl; rewrite Hcall; reflexivity|].
  split; [reflexivity|]. split.
  - destruct ep as [| |? ? []]; reflexivity.
  - unfold enter in H. destruct ep as [|key shiftKey|data files' useTurbo].
    + destruct (submit_disabled st); [discriminate|].
      unfold handleSend in H. destruct (_ && _); [discriminate|].
      destruct (Promise_all _); [|discriminate]. injection H as <- _ _.
      split; reflexivity.
    + destruct (_ && _); [|discriminate].
      unfold handleSend in H. destruct (_ && _); [discriminate|].
      destruct (Promise_all _); [|discriminate]. injection H as <- _ _.
      split; reflexivity.
    + destruct (form_shown st); [|discriminate].
      unfold handleFormSubmit, handleSend in H. destruct (_ && _); [discriminate|].
      destruct (Promise_all _); [|discriminate]. injection H as <- _ _.
      split; reflexivity.
Qed.

Lemma entry_point_decides_model_witness :
  let st := settle {| sent_text := lit "plan"; processedFiles := [] |}
              (Ok (VObj [(lit "status", VStr (lit "COLLECTING"));
                         (lit "fields", VArr [] [])])) 1500 initial in
  exists st' call k req,
    enter (FormSubmit [] [] true) 2000 st = Sent st' call k
    /\ issued (Sent st' call k) = [req]
    /\ model req = pro /\ thinkingLevel req = lit "HIGH"
    /\ loadingStep st' = lit "Thinking and Analyzing...".
Proof.
  intros st.
  destruct (@entry_point_decides_model (FormSubmit [] [] true) 2000%N st _ _ _ eq_refl)
    as (req & Hreq & Hmodel & Htier & Hstep & _).
  eexists. eexists. eexists. exists req.
  split; [reflexivity|]. repeat split; assumption.
Defined.

(** X14. While nothing is in flight, an unshifted Enter in the text area does
    exactly what a click on the submit button does (which includes doing
    nothing when there is neither text nor a staged file); any other key,
    and Enter with Shift, never sends. *)
Theorem enter_key_is_click_when_idle :
  forall now st,
    (isLoading st = false ->
     enter (KeyDown (lit "Enter") false) now st = enter ClickSubmit now st)
    /\ (forall key, key <> lit "Enter" -> forall shiftKey,
          enter (KeyDown key shiftKey) now st = Returned)
    /\ (forall key, enter (KeyDown key true) now st = Returned).
Proof.
  intros now st. split; [|split].
  - intros Hidle. unfold enter, submit_disabled. rewrite Hidle, orb_false_r.
    simpl. unfold handleSend. simpl app.
    destruct (negb (nonempty (trim (input st))) && (length (stagedFiles st) =? 0)%nat);
      reflexivity.
  - intros key Hkey shiftKey. unfold enter.
    apply str_eqb_neq in Hkey. now rewrite Hkey.
  - intros key. unfold enter. now rewrite andb_false_r.
Qed.

Lemma enter_key_is_click_when_idle_witness :
  enter (KeyDown (lit "Enter") false) 1000 (setInput (lit "hello") initial)
  = enter ClickSubmit 1000 (setInput (lit "hello") initial).
Proof.
  exact (proj1 (enter_key_is_click_when_idle 1000%N (setInput (lit "hello") initial))
           eq_refl).
Defined.

(** X15. "New Chat" gives the first-render state whatever came before, so
    doing it twice is doing it once. It cancels nothing: a reply that
    arrives afterwards for a send made before is written into the fresh
    conversation, history and log. *)
Theorem reset_then_late_reply :
  forall st,
    resetChat st = initial
    /\ resetChat (resetChat st) = resetChat st
    /\ forall k r now,
         aiHistory (settle k (Ok r) now (resetChat st)) = [userTurn k; modelTurn r]
         /\ messages (settle k (Ok r) now (resetChat st)) = [init_message; newAiMsg now r].
Proof. intros st. repeat split. Qed.

Lemma list_pair_ind :
  forall (A : Type) (P : list A -> Prop),
    P [] -> (forall x, P [x]) -> (forall x y l, P l -> P (x :: y :: l)) ->
    forall l, P l.
Proof.
  intros A P H0 H1 H2 l.
  assert (H : P l /\ forall x, P (x :: l)).
  { induction l as [|a l [IH1 IH2]]; split; auto. }
  exact (proj1 H).
Qed.

Lemma paired_app :
  forall h h', paired h = true -> paired (h ++ h') = paired h'.
Proof.
  intros h h'. induction h as [| x | x y l IH] using list_pair_ind; intros H.
  - reflexivity.
  - discriminate.
  - cbn [paired app] in *. apply andb_true_iff in H. destruct H as [Hxy Hl].
    now rewrite Hxy, (IH Hl).
Qed.

Lemma hd_error_app :
  forall (A : Type) (l l' : list A) x, hd_error l = Some x -> hd_error (l ++ l') = Some x.
Proof. intros A [|a l] l' x H; [discriminate|exact H]. Qed.

(** X16. In every state the application can reach, by any sequence of sends,
    settled calls (replies or failures, in any order, even overlapping),
    resets and edits, the conversation history is a sequence of pairs, a
    user turn followed by a model turn, and the log begins with the
    greeting. *)
Theorem history_is_always_paired :
  forall evs,
    paired (aiHistory (reach evs)) = true
    /\ hd_error (messages (reach evs)) = Some init_message.
Proof.
  intros evs. unfold reach.
  induction evs as [|ev evs [IHh IHm]] using rev_ind; [split; reflexivity|].
  rewrite fold_left_app. cbn [fold_left].
  set (st := fold_left step evs initial) in *.
  destruct ev as [ep now|k settled now| |files|files|index| |v|text]; cbn [step].
  - destruct (enter ep now st) as [|e|st' call k] eqn:E; cbn [state_after]; auto.
    destruct (@enter_sent _ _ _ _ _ _ E) as (text & files & override & p & _ & _ & Hh & Hm).
    rewrite Hh, Hm. split; [exact IHh|now apply hd_error_app].
  - destruct (receive settled) as [r|e]; cbn [settle]; simpl aiHistory; simpl messages.
    + split; [|now apply hd_error_app].
      rewrite (@paired_app _ _ IHh). reflexivity.
    + split; [exact IHh|now apply hd_error_app].
  - split; reflexivity.
  - unfold handleGlobalDrop. destruct (0 <? length files)%nat; auto.
  - unfold fileInput_onChange. destruct (0 <? length files)%nat; auto.
  - auto.
  - auto.
  - auto.
  - auto.
Qed.

End Application.

(* ===================================================================== *)
(** ** Removing by index *)
(* ===================================================================== *)

Section Removal.
Import App Shell.

Lemma filter_index_ext :
  forall (A : Type) (f g : nat -> bool) (l : list A) i,
    (forall j, i <= j -> f j = g j) -> filter_index f i l = filter_index g i l.
Proof.
  intros A f g l. induction l as [|x l IH]; intros i H; simpl; [reflexivity|].
  rewrite (H i (le_n i)), (IH (S i)); [reflexivity|].
  intros j Hj. apply H. lia.
Qed.

Lemma filter_index_all :
  forall (A : Type) (f : nat -> bool) (l : list A) i,
    (forall j, i <= j -> f j = true) -> filter_index f i l = l.
Proof.
  intros A f l. induction l as [|x l IH]; intros i H; simpl; [reflexivity|].
  rewrite (H i (le_n i)), (IH (S i)); [reflexivity|].
  intros j Hj. apply H. lia.
Qed.

(** The filter of the source keeps what the recursion of [remove_at]
    keeps. *)
Lemma filter_index_remove_at :
  forall (A : Type) (l : list A) index i,
    filter_index (fun j => negb (Nat.eqb j (i + index))) i l = remove_at index l.
Proof.
  intros A l. induction l as [|x l IH]; intros index i; simpl.
  - now destruct index.
  - destruct index as [|n].
    + rewrite Nat.add_0_r, Nat.eqb_refl. simpl.
      apply filter_index_all. intros j Hj.
      apply negb_true_iff, Nat.eqb_neq. lia.
    + assert (E : Nat.eqb i (i + S n) = false) by (apply Nat.eqb_neq; lia).
      rewrite E. simpl. f_equal. rewrite <- (IH n (S i)).
      apply filter_index_ext. intros j _. now rewrite Nat.add_succ_comm.
Qed.

Lemma remove_at_spec :
  forall (A : Type) (l : list A) index,
    remove_at index l = firstn index l ++ skipn (S index) l.
Proof.
  intros A l. induction l as [|x l IH]; intros index.
  - now destruct index.
  - destruct index as [|n]; [reflexivity|]. simpl. now rewrite IH.
Qed.

(** X17. Removing a staged file (or an extra file of the form) takes out the
    file at that index and nothing else, the others keeping their order;
    an index past the end removes nothing. This is what the filter of the
    source computes, and the rest of the state is not touched. *)
Theorem removeStagedFile_removes_one :
  forall index st,
    removeStagedFile_filter index st = removeStagedFile index st
    /\ stagedFiles (removeStagedFile index st)
       = firstn index (stagedFiles st) ++ skipn (S index) (stagedFiles st)
    /\ (index < length (stagedFiles st) ->
        S (length (stagedFiles (removeStagedFile index st))) = length (stagedFiles st))
    /\ (length (stagedFiles st) <= index ->
        stagedFiles (removeStagedFile index st) = stagedFiles st)
    /\ messages (removeStagedFile index st) = messages st
    /\ aiHistory (removeStagedFile index st) = aiHistory st
    /\ input (removeStagedFile index st) = input st
    /\ forall fst, GenerativeForm.additionalFiles (GenerativeForm.removeAdditionalFile index fst)
                   = firstn index (GenerativeForm.additionalFiles fst)
                     ++ skipn (S index) (GenerativeForm.additionalFiles fst).
Proof.
  intros index st.
  assert (Hspec : stagedFiles (removeStagedFile index st)
                  = firstn index (stagedFiles st) ++ skipn (S index) (stagedFiles st)).
  { simpl. apply remove_at_spec. }
  split.
  { unfold removeStagedFile_filter, removeStagedFile, setStagedFiles. f_equal.
    exact (filter_index_remove_at (stagedFiles st) index 0). }
  split; [exact Hspec|]. split; [|split].
  - intros Hlt. rewrite Hspec, length_app, length_firstn, length_skipn. lia.
  - intros Hge. rewrite Hspec, firstn_all2, skipn_all2 by lia. apply app_nil_r.
  - repeat split; try reflexivity. intros fst. simpl. apply remove_at_spec.
Qed.

Lemma removeStagedFile_removes_one_witness :
  let st := handleGlobalDrop [Scenario.file_a; Scenario.file_b; Scenario.file_c] initial in
  S (length (stagedFiles (removeStagedFile 1 st))) = 3%nat
  /\ stagedFiles (removeStagedFile 1 st) = [Scenario.file_a; Scenario.file_c]
  /\ stagedFiles (removeStagedFile 3 st) = [Scenario.file_a; Scenario.file_b; Scenario.file_c].
Proof.
  intros st.
  destruct (removeStagedFile_removes_one 1 st) as (_ & Hspec & Hlen & _).
  destruct (removeStagedFile_removes_one 3 st) as (_ & _ & _ & Hout & _).
  split; [apply Hlen; simpl; lia|]. split; [exact Hspec|].
  apply Hout. simpl. lia.
Defined.

End Removal.

(* ===================================================================== *)
(** ** More of the generated form *)
(* ===================================================================== *)

Section FormState.
Import GenerativeForm.

Lemma get_Some_In :
  forall (A : Type) (o : Obj.object A) k v,
    NoDup (map fst o) -> (Obj.get k o = Some v <-> In (k, v) o).
Proof.
  intros A o k v. induction o as [|[j w] o IH]; intros Hnd; simpl.
  - split; [discriminate|tauto].
  - inversion Hnd as [|? ? Hj Hnd']; subst.
    destruct (str_eqb k j) eqn:E.
    + apply str_eqb_eq in E. subst j. split.
      * intros H. injection H as ->. now left.
      * intros [H|H]; [now injection H as ->|].
        exfalso. apply Hj. apply (in_map fst) in H. exact H.
    + apply str_eqb_neq in E. rewrite (IH Hnd'). split.
      * intros H. now right.
      * intros [H|H]; [injection H as -> _; congruence|exact H].
Qed.

(** Reading a key does not depend on the order of the properties. *)
Lemma get_own_entries :
  forall (A : Type) (o : Obj.object A) k,
    NoDup (map fst o) -> Obj.get k (Obj.own_entries o) = Obj.get k o.
Proof.
  intros A o k Hnd.
  pose proof (own_entries_perm o) as Hperm.
  assert (Hnd' : NoDup (map fst (Obj.own_entries o))).
  { apply (Permutation_NoDup (l := map fst o)); [|exact Hnd].
    symmetry. now apply Permutation_map. }
  destruct (Obj.get k o) as [v|] eqn:E.
  - apply (get_Some_In _ _ _ Hnd'). apply (get_Some_In _ _ _ Hnd) in E.
    exact (Permutation_in _ (Permutation_sym Hperm) E).
  - apply get_None_not_in. apply get_None_not_in in E. intros H. apply E.
    exact (Permutation_in _ (Permutation_map fst Hperm) H).
Qed.

Lemma get_spread_set :
  forall (A : Type) (o : Obj.object A) k v i,
    NoDup (map fst o) ->
    Obj.get i (Obj.spread_set o k v) = if str_eqb k i then Some v else Obj.get i o.
Proof.
  intros A o k v i Hnd. unfold Obj.spread_set. destruct (str_eqb k i) eqn:E.
  - apply str_eqb_eq in E. subst i. apply get_set_same.
  - apply str_eqb_neq in E. rewrite get_set_other by exact E.
    now apply get_own_entries.
Qed.

Lemma formData_NoDup : forall evs, NoDup (map fst (formData (after evs))).
Proof.
  induction evs as [|ev evs IH] using rev_ind; [constructor|].
  rewrite after_snoc, formData_handle.
  destruct ev as [f [v|file|]| | | | |]; auto using NoDup_spread_set.
Qed.

Lemma last_entry_snoc :
  forall i evs ev,
    Traces.last_entry i (evs ++ [ev])
    = match Spec.on_id i ev with
      | Some e => Some (Traces.written e)
      | None => Traces.last_entry i evs
      end.
Proof. intros. unfold Traces.last_entry. now rewrite fold_left_app. Qed.

Lemma get_formData :
  forall evs i, Obj.get i (formData (after evs)) = Traces.last_entry i evs.
Proof.
  induction evs as [|ev evs IH] using rev_ind; intros i; [reflexivity|].
  rewrite after_snoc, formData_handle, last_entry_snoc.
  pose proof (formData_NoDup evs) as Hnd.
  destruct ev as [f e| | | | |]; simpl Spec.on_id; try apply IH.
  destruct e as [v|file|]; rewrite (get_spread_set _ _ _ _ Hnd);
    destruct (str_eqb (id f) i); auto.
Qed.

(** X18. What [formData] holds for a descriptor is what the last event on that
    descriptor wrote: the text typed, the name of the file chosen, or
    [null] after the file was removed; and nothing if the descriptor was
    never touched. Events on other descriptors do not disturb it. *)
Theorem formData_holds_last_entry :
  forall evs i, Obj.get i (formData (after evs)) = Traces.last_entry i evs.
Proof. exact get_formData. Qed.

Lemma get_submitted_data :
  forall evs useTurbo k,
    Obj.get k (data (handleSubmit useTurbo (after evs)))
    = if str_eqb App.additional_text k then Some (FStr (additionalText (after evs)))
      else Traces.last_entry k evs.
Proof.
  intros evs useTurbo k. unfold handleSubmit. simpl data.
  rewrite (get_spread_set _ _ _ _ (formData_NoDup evs)).
  now rewrite get_formData.
Qed.

(** X19. What the form hands to [onSubmit] as data: under [additional_text]
    the notes, under every other key the last entry of that descriptor. A
    descriptor whose id is [additional_text] loses its answer to the notes. *)
Theorem submitted_data_lookup :
  forall evs useTurbo k,
    Obj.get k (data (handleSubmit useTurbo (after evs)))
    = if str_eqb App.additional_text k then Some (FStr (additionalText (after evs)))
      else Traces.last_entry k evs.
Proof. exact get_submitted_data. Qed.

Lemma additionalFiles_handle :
  forall st ev,
    additionalFiles (handle st ev)
    = match ev with
      | Drop fs | ManualFileSelect fs => additionalFiles st ++ fs
      | RemoveAdditionalFile i => App.remove_at i (additionalFiles st)
      | _ => additionalFiles st
      end.
Proof.
  intros st ev. destruct ev as [f e| | |fs|fs|]; try reflexivity.
  - destruct e; reflexivity.
  - simpl. unfold handleDrop. destruct fs; [simpl; now rewrite app_nil_r|reflexivity].
  - simpl. unfold handleManualFileSelect.
    destruct fs; [simpl; now rewrite app_nil_r|reflexivity].
Qed.

(** X20. As long as no extra file is removed, the extra files of the form are
    the files of all drops and selections, in the order in which they
    came; field entries, notes and dictation never change them. *)
Theorem extra_files_in_attachment_order :
  forall evs,
    forallb (fun ev => negb (Traces.is_extra_removal ev)) evs = true ->
    additionalFiles (after evs) = Traces.attached evs.
Proof.
  induction evs as [|ev evs IH] using rev_ind; intros H; [reflexivity|].
  rewrite forallb_app in H. apply andb_true_iff in H. destruct H as [H Hev].
  rewrite after_snoc, additionalFiles_handle, (IH H).
  unfold Traces.attached. rewrite flat_map_app. simpl.
  destruct ev as [f e| | |fs|fs|]; rewrite ?app_nil_r; try reflexivity.
  discriminate.
Qed.

Lemma extra_files_in_attachment_order_witness :
  additionalFiles (after [Drop [Scenario.file_a];
                          OnField (Scenario.field (lit "spec") FILE) (FileChosen Scenario.file_c);
                          ManualFileSelect [Scenario.file_b; Scenario.file_a];
                          Drop []])
  = [Scenario.file_a; Scenario.file_b; Scenario.file_a].
Proof.
  exact (@extra_files_in_attachment_order
           [Drop [Scenario.file_a];
            OnField (Scenario.field (lit "spec") FILE) (FileChosen Scenario.file_c);
            ManualFileSelect [Scenario.file_b; Scenario.file_a];
            Drop []] eq_refl).
Defined.

Lemma distinct_length : forall l, length (Spec.distinct l) <= length l.
Proof.
  induction l as [|i l IH]; simpl; [lia|].
  destruct (Spec.mem i l); simpl; lia.
Qed.

Lemma completedCount_le :
  forall fields evs,
    Spec.from_fields fields evs ->
    completedCount (after evs) <= length fields.
Proof.
  intros fields evs Hfrom. rewrite (@completedCount_filled_ids fields evs Hfrom).
  unfold Spec.filled_ids.
  rewrite filter_length_le, distinct_length, length_map. lia.
Qed.

(** X21. The number of filled entries the form counts never exceeds the number
    of descriptors: the quotient behind the percentage is at most 1. *)
Theorem completedCount_bounded :
  forall fields evs,
    Spec.from_fields fields evs ->
    completedCount (after evs) <= length fields.
Proof. exact completedCount_le. Qed.

Lemma completedCount_bounded_witness :
  completedCount (after Scenario.one_filled) <= length Scenario.three_fields.
Proof.
  apply completedCount_bounded.
  intros f e [H|[]]. injection H as <- _. now left.
Defined.

(** X22. A form without descriptors divides zero by zero: what it reports is
    NaN, not a percentage. *)
Theorem no_descriptors_reports_nan :
  forall evs, Spec.from_fields [] evs -> progress [] (after evs) = PrimFloat.nan.
Proof.
  intros evs Hfrom.
  pose proof (@completedCount_le [] evs Hfrom) as Hle. simpl in Hle.
  unfold progress. replace (completedCount (after evs)) with 0%nat by lia.
  vm_compute. reflexivity.
Qed.

Lemma no_descriptors_reports_nan_witness :
  progress [] (after [Notes (lit "nothing to ask"); Drop [Scenario.file_a]]) = PrimFloat.nan.
Proof.
  apply no_descriptors_reports_nan. intros f e [H|[H|[]]]; discriminate.
Defined.

End FormState.

(* ===================================================================== *)
(** ** The completion percentage, and submitting whatever it says *)
(* ===================================================================== *)

Section Submitting.
Import GeminiService.

(** Files that can all be read are all encoded. *)
Lemma Promise_all_readable :
  forall l : list File,
    (forall f, In f l -> exists u, dataURL f = Ok u) ->
    exists processed,
      Promise_all (map (fun f => d <- App.fileToBase64 f ;;
                                 Ok {| mimeType := file_type f; data := d |}) l)
      = Ok processed.
Proof.
  induction l as [|f l IH]; intros H; [now exists []|].
  destruct (H f (or_introl eq_refl)) as (u & Hu).
  destruct IH as (processed & Hp); [intros g Hg; apply H; now right|].
  eexists. simpl. unfold App.fileToBase64 at 1. rewrite Hu. simpl. rewrite Hp. reflexivity.
Qed.

(** A submitted form whose files can be read goes out: the user message is
    committed and one request is on its way. *)
Lemma handleFormSubmit_sends :
  forall data files useTurbo now st,
    (forall f, In f (files ++ App.stagedFiles st) -> exists u, dataURL f = Ok u) ->
    exists st' k,
      App.handleFormSubmit data files useTurbo now st
      = App.Sent st'
          (sendMessageToGemini (App.aiHistory st)
             {| input_text := Some (App.sent_text k);
                input_files := Some (App.processedFiles k) |}
             (if useTurbo then App.pro else App.flash))
          k
      /\ App.isLoading st' = true.
Proof.
  intros data files useTurbo now st Hread.
  pose proof (@handleFormSubmit_not_returned data files useTurbo now st) as Hnot.
  unfold App.handleFormSubmit in *.
  match goal with
  | |- context [App.handleSend ?msg _ _ _ _ _] => set (finalMessage := msg) in *
  end.
  unfold App.handleSend in *.
  destruct (negb (nonempty (trim finalMessage))
            && (length (files ++ App.stagedFiles st) =? 0)%nat);
    [now elim Hnot|].
  destruct (Promise_all_readable _ Hread) as (processed & Hp). rewrite Hp.
  eexists. exists {| App.sent_text := finalMessage; App.processedFiles := processed |}.
  split; reflexivity.
Qed.

End Submitting.

Section Completion.
Import GeminiService GenerativeForm.

(** C9. The percentage the form reports is
    round((count / total) * 100), where count is the number of descriptor
    ids with a non-empty current value and total the number of descriptors;
    for a form of up to 128 descriptors that is an integer from 0 to 100 at
    most one half away from the exact share. With one of three descriptors
    filled it is 33, with two of three 67. It gates nothing: whatever has or
    has not been filled in, submitting the form commits the user message
    and sends one request to the model, provided the attached files can be
    read. *)
Theorem progress_is_rounded_share :
  forall fields evs,
    Spec.from_fields fields evs ->
    let count := length (Spec.filled_ids fields (after evs)) in
    progress fields (after evs) = Spec.percentage count (length fields)
    /\ ((1 <= length fields <= 128)%nat ->
        Spec.is_nearest_percent count (length fields) (progress fields (after evs)) = true)
    /\ progress Scenario.three_fields (after Scenario.one_filled) = 33%float
    /\ progress Scenario.three_fields (after Cases.two_filled) = 67%float
    /\ (forall useTurbo now st,
          App.form_shown st = true ->
          let sub := handleSubmit useTurbo (after evs) in
          (forall f, In f (files sub ++ App.stagedFiles st) -> exists u, dataURL f = Ok u) ->
          exists st' call k,
            App.enter (App.FormSubmit (data sub) (files sub) (GenerativeForm.useTurbo sub))
                      now st
            = App.Sent st' call k
            /\ Observe.issued (App.Sent st' call k)
               = [request (App.aiHistory st)
                    {| input_text := Some (App.sent_text k);
                       input_files := Some (App.processedFiles k) |}
                    (if useTurbo then App.pro else App.flash)]
            /\ App.isLoading st' = true).
Proof.
  intros fields evs Hfrom count.
  assert (Hprogress : progress fields (after evs) = Spec.percentage count (length fields)).
  { unfold progress, Spec.percentage, count.
    now rewrite (completedCount_filled_ids Hfrom). }
  split; [exact Hprogress|]. split; [|split; [|split]].
  - intros Hlen. rewrite Hprogress. apply percentage_is_nearest; [exact Hlen|].
    unfold count. rewrite <- (completedCount_filled_ids Hfrom).
    now apply completedCount_le.
  - vm_compute. reflexivity.
  - vm_compute. reflexivity.
  - intros useTurbo now st Hshown sub Hread. unfold App.enter. rewrite Hshown.
    destruct (@handleFormSubmit_sends (data sub) (files sub) useTurbo now st Hread)
      as (st' & k & Hsent & Hloading).
    eexists. eexists. eexists. split; [exact Hsent|]. split; [reflexivity|exact Hloading].
Qed.

Lemma progress_is_rounded_share_witness :
  length (Spec.filled_ids Scenario.three_fields (after Scenario.one_filled)) = 1%nat
  /\ progress Scenario.three_fields (after Scenario.one_filled) = Spec.percentage 1 3
  /\ Spec.is_nearest_percent 1 3
       (progress Scenario.three_fields (after Scenario.one_filled)) = true
  /\ exists st' call k,
       App.enter (App.FormSubmit (data (handleSubmit false (after Scenario.one_filled)))
                                 (files (handleSubmit false (after Scenario.one_filled)))
                                 false)
                 2000 Cases.form_open
       = App.Sent st' call k
       /\ length (Observe.issued (App.Sent st' call k)) = 1%nat.
Proof.
  assert (Hfrom : Spec.from_fields Scenario.three_fields Scenario.one_filled).
  { intros f e [H|[]]. injection H as <- _. now left. }
  destruct (progress_is_rounded_share Hfrom) as (Hp & Hnear & _ & _ & Hsub).
  split; [reflexivity|]. split; [exact Hp|]. split.
  - apply Hnear. simpl. lia.
  - destruct (Hsub false 2000%N Cases.form_open eq_refl) as (st' & call & k & Hsent & Hissued & _).
    + simpl. intros f [].
    + exists st', call, k. split; [exact Hsent|]. now rewrite Hissued.
Defined.

End Completion.

(* ===================================================================== *)
(** ** From the form to the message *)
(* ===================================================================== *)

Section FormToMessage.
Import GeminiService App Shell.

(** Every element of a joined list is there between two separators, or
    between a separator and the end. *)
Lemma join_line :
  forall sep (l : list jsstring) x,
    In x l ->
    exists pre post,
      sep ++ join sep l = pre ++ sep ++ x ++ post
      /\ (post = [] \/ exists rest, post = sep ++ rest).
Proof.
  intros sep l x. induction l as [|y l IH]; intros H; [destruct H|].
  destruct H as [->|H].
  - destruct l as [|z l].
    + exists [], []. simpl. split; [now rewrite app_nil_r|now left].
    + exists [], (sep ++ join sep (z :: l)). split; [reflexivity|].
      right. now eexists.
  - destruct (IH H) as (pre & post & E & Hpost). destruct l as [|z l]; [destruct H|].
    exists (sep ++ y ++ pre), post. split; [|exact Hpost].
    change (join sep (y :: z :: l)) with (y ++ sep ++ join sep (z :: l)).
    rewrite E. now rewrite <- !app_assoc.
Qed.

(** X23. No answer is lost on the way to the model: for every descriptor the
    user touched (other than one named [additional_text]), the message a
    form submission sends has the line "id: value" with the last value
    entered, after a line break and before a line break or the end of the
    message; a file field whose file was removed gives the line
    "id: null". *)
Theorem answers_reach_the_message :
  forall evs useTurbo now st st' call k i v,
    handleFormSubmit (GenerativeForm.data (GenerativeForm.handleSubmit useTurbo (GenerativeForm.after evs)))
                     (GenerativeForm.files (GenerativeForm.handleSubmit useTurbo (GenerativeForm.after evs)))
                     useTurbo now st
    = Sent st' call k ->
    Traces.last_entry i evs = Some v -> i <> additional_text ->
    exists pre post,
      sent_text k = pre ++ [10%N] ++ (i ++ lit ": " ++ String_of v) ++ post
      /\ (post = [] \/ exists rest, post = 10%N :: rest).
Proof.
  intros evs useTurbo now st st' call k i v H Hlast Hi.
  set (sub := GenerativeForm.handleSubmit useTurbo (GenerativeForm.after evs)) in *.
  assert (Hnd : NoDup (map fst (GenerativeForm.data sub))).
  { unfold sub, GenerativeForm.handleSubmit. simpl.
    apply NoDup_spread_set, formData_NoDup. }
  assert (Hget : Obj.get i (GenerativeForm.data sub) = Some v).
  { unfold sub. rewrite get_submitted_data.
    assert (E : str_eqb additional_text i = false) by (apply str_eqb_neq; congruence).
    now rewrite E. }
  assert (Hin : In (i, v) (Obj.own_entries (GenerativeForm.data sub))).
  { rewrite <- (get_own_entries _ i Hnd) in Hget.
    apply get_Some_In in Hget; [exact Hget|].
    apply (Permutation_NoDup (l := map fst (GenerativeForm.data sub))); [|exact Hnd].
    symmetry. apply Permutation_map, own_entries_perm. }
  unfold handleFormSubmit in H.
  destruct (@handleSend_sent _ _ _ _ _ _ _ _ _ H) as (p & -> & _).
  cbn [sent_text].
  match goal with
  | |- exists pre post, ?a ++ ?b ++ ?c ++ ?d ++ ?e ++ ?sep ++ join ?sep ?lines = _ /\ _ =>
      destruct (@join_line sep lines (i ++ lit ": " ++ String_of v))
        as (pre & post & E & Hpost)
  end.
  - apply in_map_iff. exists (i, v). split; [reflexivity|].
    apply filter_In. split; [exact Hin|]. simpl.
    apply negb_true_iff, str_eqb_neq. exact Hi.
  - rewrite E. eexists. exists post. split; [rewrite !app_assoc; reflexivity|].
    destruct Hpost as [->|(rest & ->)]; [now left|right; now exists rest].
Qed.

Lemma answers_reach_the_message_witness :
  exists st' call k pre post,
    handleFormSubmit
      (GenerativeForm.data (GenerativeForm.handleSubmit false
                              (GenerativeForm.after Cases.overlapping)))
      (GenerativeForm.files (GenerativeForm.handleSubmit false
                               (GenerativeForm.after Cases.overlapping)))
      false 2000 Cases.form_open = Sent st' call k
    /\ sent_text k = pre ++ [10%N] ++ lit "a: 7" ++ post
    /\ (post = [] \/ exists rest, post = 10%N :: rest).
Proof.
  destruct (@answers_reach_the_message Cases.overlapping false 2000%N Cases.form_open
              _ _ _ (lit "a") (FStr (lit "7")) eq_refl eq_refl)
    as (pre & post & E & Hpost).
  - discriminate.
  - eexists. eexists. eexists. exists pre, post.
    split; [reflexivity|]. split; [exact E|exact Hpost].
Defined.

Lemma last_snoc_some :
  forall (A : Type) (l : list A) m, last (map Some (l ++ [m])) None = Some m.
Proof.
  intros A l m. rewrite map_app. simpl. apply last_last.
Qed.

(** X24. While a request is in flight the last message of the log is the
    user's, so the generated form is not on screen and the submit button is
    disabled: in every reachable state with [isLoading] set, a click on
    the button and a submission of the form do nothing. *)
Theorem in_flight_blocks_button_and_form :
  forall evs,
    isLoading (reach evs) = true ->
    form_shown (reach evs) = false
    /\ (forall now, enter ClickSubmit now (reach evs) = Returned)
    /\ (forall data files useTurbo now,
          enter (FormSubmit data files useTurbo) now (reach evs) = Returned).
Proof.
  intros evs Hload.
  assert (Hshown : form_shown (reach evs) = false).
  { revert Hload. unfold reach.
    induction evs as [|ev evs IH] using rev_ind; [discriminate|].
    rewrite fold_left_app. cbn [fold_left].
    set (st := fold_left step evs initial) in *.
    destruct ev as [ep now|k settled now| |files|files|index| |v|text]; cbn [step].
    - destruct (enter ep now st) as [|e|st' call k] eqn:E; cbn [Observe.state_after]; auto.
      intros _. destruct (@enter_sent _ _ _ _ _ _ E) as (t & f & o & p & _ & _ & _ & Hm).
      unfold form_shown. now rewrite Hm, last_snoc_some.
    - destruct (receive settled); discriminate.
    - discriminate.
    - unfold handleGlobalDrop. destruct (0 <? length files)%nat; exact IH.
    - unfold fileInput_onChange. destruct (0 <? length files)%nat; exact IH.
    - exact IH.
    - exact IH.
    - exact IH.
    - exact IH. }
  split; [exact Hshown|]. split.
  - intros now. now apply click_submit_while_loading.
  - intros data files useTurbo now. unfold enter. now rewrite Hshown.
Qed.

Lemma in_flight_blocks_button_and_form_witness :
  let evs := [Typing (lit "hello"); Enter ClickSubmit 1000] in
  isLoading (reach evs) = true
  /\ enter (FormSubmit [] [] false) 2000 (reach evs) = Returned.
Proof.
  intros evs. split; [reflexivity|].
  exact (proj2 (proj2 (@in_flight_blocks_button_and_form evs eq_refl)) [] [] false 2000%N).
Defined.

End FormToMessage.
